(** * FINN graph-execution engine: [finn/core/onnx_exec.py]

    A shallow embedding of [execute_node] and [execute_onnx].  Python
    dictionaries are mutable objects that the two functions share by
    reference, so they live in an explicit store and every function is a
    computation over that store which either returns or raises. *)

From stdpp Require Import base list strings pretty.

(** ** Python values *)

(** A [numpy.ndarray]: the engine only ever looks at [.shape]; the payload
    is carried along untouched. *)
Record ndarray := mk_ndarray {
  shape : list nat;
  data : list Z
}.

Definition zeros (s : list nat) : ndarray :=
  {| shape := s; data := replicate (foldr Nat.mul 1 s) 0%Z |}.

(** [str(t)] for a tuple of ints: [()], [(4,)], [(1, 2)]. *)
Fixpoint str_items (s : list nat) : string :=
  match s with
  | [] => ""
  | [x] => pretty x
  | x :: rest => pretty x +:+ ", " +:+ str_items rest
  end.

Definition str_shape (s : list nat) : string :=
  match s with
  | [] => "()"
  | [x] => "(" +:+ pretty x +:+ ",)"
  | _ => "(" +:+ str_items s +:+ ")"
  end.

(** A Python [dict] keyed by tensor name: insertion ordered, one entry per
    key.  [dict_set] is [d[k] = v]: an existing key keeps its position. *)
Abbreviation dict := (list (string * ndarray)) (only parsing).

Fixpoint dict_get (k : string) (d : dict) : option ndarray :=
  match d with
  | [] => None
  | (k', v) :: d' => if String.eqb k k' then Some v else dict_get k d'
  end.

Fixpoint dict_set (k : string) (v : ndarray) (d : dict) : dict :=
  match d with
  | [] => [(k, v)]
  | (k', v') :: d' =>
      if String.eqb k k' then (k, v) :: d' else (k', v') :: dict_set k v d'
  end.

Definition dict_keys (d : dict) : list string := map fst d.

(** [d.update(other)] *)
Definition dict_update (d other : dict) : dict :=
  fold_left (fun acc kv => dict_set (fst kv) (snd kv) acc) other d.

(** ** Exceptions *)

Inductive exn :=
| Exception (msg : string)          (* raise Exception(msg) *)
| KeyError (key : string)           (* d[key] on a missing key *)
| IndexError (msg : string)         (* l[i] out of range *)
| AttributeError (msg : string)     (* x.attr on an object without attr *)
| UnboundLocalError (msg : string)  (* local read before assignment *)
| RecursionError                    (* nesting of partitions exhausted *)
| CollaboratorError (msg : string)  (* raised inside an external collaborator *)
| DanglingReference (l : nat).      (* store lookup outside the store *)

Inductive result (A : Type) :=
| Ok (a : A)
| Raise (e : exn).
Arguments Ok {A} a.
Arguments Raise {A} e.

(** ** Computations that mutate a state and may raise

    The state survives a raise: Python does not roll anything back. *)
Definition ST (S A : Type) : Type := S -> result A * S.

Definition ret {S A} (a : A) : ST S A := fun s => (Ok a, s).

Definition raise {S A} (e : exn) : ST S A := fun s => (Raise e, s).

Definition bind {S A B} (m : ST S A) (k : A -> ST S B) : ST S B :=
  fun s =>
    match m s with
    | (Ok a, s') => k a s'
    | (Raise e, s') => (Raise e, s')
    end.

Notation "'let!' x ':=' m 'in' k" := (bind m (fun x => k))
  (at level 10, x name, m at level 100, k at level 200).
Notation "m ';!' k" := (bind m (fun _ => k))
  (at level 100, k at level 200, right associativity).

Definition lift_result {S A} (r : result A) : ST S A := fun s => (r, s).

Fixpoint for_each {S A} (l : list A) (body : A -> ST S unit) : ST S unit :=
  match l with
  | [] => ret tt
  | x :: rest => body x ;! for_each rest body
  end.

(** *** One dictionary as the state *)
Definition D := ST dict.

Definition getitem (k : string) : D ndarray := fun d =>
  match dict_get k d with
  | Some v => (Ok v, d)
  | None => (Raise (KeyError k), d)
  end.

Definition setitem (k : string) (v : ndarray) : D unit := fun d =>
  (Ok tt, dict_set k v d).

Definition contains (k : string) : D bool := fun d =>
  (Ok (bool_decide (is_Some (dict_get k d))), d).

Definition keys : D (list string) := fun d => (Ok (dict_keys d), d).

Definition update (other : dict) : D unit := fun d =>
  (Ok tt, dict_update d other).

(** *** The store of dictionaries

    A reference is an index into the store; allocation appends. *)
Abbreviation loc := nat (only parsing).
Abbreviation heap := (list dict) (only parsing).
Definition M := ST heap.

Definition at_loc {A} (l : loc) (f : D A) : M A := fun h =>
  match h !! l with
  | None => (Raise (DanglingReference l), h)
  | Some d => let '(r, d') := f d in (r, <[l := d']> h)
  end.

Definition new_dict (d : dict) : M loc := fun h => (Ok (length h), h ++ [d]).

Definition deref (l : loc) : M dict := fun h =>
  match h !! l with
  | None => (Raise (DanglingReference l), h)
  | Some d => (Ok d, h)
  end.

(** ** The ONNX data model, as far as the engine reads it *)

(** A [ValueInfoProto]: a declaration of a tensor name with its shape. *)
Record ValueInfo := mk_ValueInfo {
  name : string;
  vi_shape : list nat
}.

Module Node.
Record t := mk {
  op_type : string;
  domain : string;
  input : list string;
  output : list string
}.
End Node.

Module Graph.
Record t := mk {
  node : list Node.t;
  input : list ValueInfo;
  output : list ValueInfo;
  value_info : list ValueInfo
}.
End Graph.

(** A [ModelWrapper] object.  The class itself ([finn.core.modelwrapper]) is
    not part of these sources; the engine observes it only through
    [model.graph] and three methods, which are the fields below:
    [make_empty_exec_context()] returns a fresh dictionary each time it is
    called, so the field holds its contents and the caller allocates. *)
Module Model.
Record t := mk {
  graph : Graph.t;
  check_all_tensor_shapes_specified : bool;
  make_empty_exec_context : dict;
  get_metadata_prop : string -> option string
}.
End Model.

(** The external collaborators the engine calls into.  Those that receive
    the context may write to it and may raise after writing. *)
Record Collaborators := mk_Collaborators {
  (** [rt.InferenceSession(node_model.SerializeToString()).run(None, input_dict)]
      for the single-node model made of [node], [node_inputs], [node_outputs] *)
  sess_run : Node.t -> list ValueInfo -> list ValueInfo -> dict ->
             result (list ndarray);
  (** [ex_cu_node.execute_custom_node(node, context, graph)] *)
  execute_custom_node : Node.t -> Graph.t -> D unit;
  (** [remote_exec(model, execution_context)] *)
  remote_exec : Model.t -> D unit;
  (** [rtlsim_exec(model, execution_context)] *)
  rtlsim_exec : Model.t -> D unit;
  (** [ModelWrapper(getCustomOp(node).get_nodeattr("model"))] *)
  load_partition_model : Node.t -> result Model.t
}.

(** ** Message texts *)

Definition dquote : string := String (Ascii.ascii_of_nat 34) EmptyString.
Definition newline : string := String (Ascii.ascii_of_nat 10) EmptyString.

Fixpoint spaces (n : nat) : string :=
  match n with
  | 0 => ""
  | S n' => " " +:+ spaces n'
  end.

(** ["Shape mismatch for provided input %s: found %s expected %s " % (a, b, c)] *)
Definition input_shape_msg (a b c : string) : string :=
  "Shape mismatch for provided input " +:+ a +:+ ": found " +:+ b
  +:+ " expected " +:+ c +:+ " ".

(** The triple-quoted text of lines 102-103, [% (a, b)]. *)
Definition output_shape_msg (a b : string) : string :=
  "Output shapes disagree after node execution:" +:+ newline +:+ spaces 24
  +:+ "found " +:+ a +:+ " vs expected " +:+ b.

(** The triple-quoted text of lines 168-170; it has no format arguments. *)
Definition unknown_exec_mode_msg : string :=
  "Metadata property " +:+ dquote +:+ "exec_mode" +:+ dquote
  +:+ " is set to an unknown value." +:+ newline +:+ spaces 8
  +:+ "Can be left unset or has to be set to " +:+ dquote +:+ "remote_pynq"
  +:+ dquote +:+ " for remote execution" +:+ newline +:+ spaces 8
  +:+ "on PYNQ board or " +:+ dquote +:+ "rtlsim" +:+ dquote
  +:+ " for execution using pyverilator!".

(** [t.shape] where [t] is already a tuple: tuples have no such attribute. *)
Definition tuple_getattr_shape {S} (t : list nat) : ST S (list nat) :=
  raise (AttributeError "'tuple' object has no attribute 'shape'").

(** ** [execute_node], generic-backend path (lines 61-109) *)

(** [lambda x: x.name in names] *)
Definition name_in (names : list string) (x : ValueInfo) : bool :=
  bool_decide (name x ∈ names).

(** lines 68-71 *)
Definition node_inputs_of (node : Node.t) (graph : Graph.t) : list ValueInfo :=
  List.filter (name_in (Node.input node)) (Graph.input graph)
  ++ List.filter (name_in (Node.input node)) (Graph.value_info graph).

(** lines 72-75 *)
Definition node_outputs_of (node : Node.t) (graph : Graph.t) : list ValueInfo :=
  List.filter (name_in (Node.output node)) (Graph.output graph)
  ++ List.filter (name_in (Node.output node)) (Graph.value_info graph).

(** lines 83-85: [input_dict[inp] = context[inp]] for each node input *)
Fixpoint collect_inputs (inps : list string) (input_dict : dict) : D dict :=
  match inps with
  | [] => ret input_dict
  | inp :: rest =>
      let! v := getitem inp in
      collect_inputs rest (dict_set inp v input_dict)
  end.

(** lines 95-97: the scan runs over all of [node_outputs] without a break,
    so a later match replaces an earlier one, and without a match the
    variable [list_ind] keeps whatever it held before the scan. *)
Fixpoint scan_list_ind (outp : string) (node_outputs : list ValueInfo)
    (i : nat) (list_ind : option nat) : option nat :=
  match node_outputs with
  | [] => list_ind
  | vi :: rest =>
      scan_list_ind outp rest (S i)
        (if String.eqb outp (name vi) then Some i else list_ind)
  end.

(** lines 92-109: one round of the outer loop.  [list_ind] is a local of
    [execute_node]; [None] is the unassigned local. *)
Definition reconcile_output (node_outputs : list ValueInfo)
    (output_list : list ndarray) (outp : string) (list_ind : option nat)
    : D (option nat) :=
  let list_ind := scan_list_ind outp node_outputs 0 list_ind in
  match list_ind with
  | None =>
      raise (UnboundLocalError
               "local variable 'list_ind' referenced before assignment")
  | Some i =>
      match output_list !! i with
      | None => raise (IndexError "list index out of range")
      | Some buf =>
          let! cur := getitem outp in
          if decide (shape buf ≠ shape cur) then
            let! found := tuple_getattr_shape (shape buf) in
            raise (Exception
                     (output_shape_msg (str_shape found) (str_shape (shape cur))))
          else
            setitem outp buf ;!
            ret list_ind
      end
  end.

(** lines 90-109 *)
Fixpoint reconcile (node_outputs : list ValueInfo) (output_list : list ndarray)
    (outs : list string) (list_ind : option nat) : D unit :=
  match outs with
  | [] => ret tt
  | outp :: rest =>
      let! list_ind := reconcile_output node_outputs output_list outp list_ind in
      reconcile node_outputs output_list rest list_ind
  end.

Definition execute_generic (c : Collaborators) (node : Node.t) (graph : Graph.t)
    : D unit :=
  let node_inputs := node_inputs_of node graph in
  let node_outputs := node_outputs_of node graph in
  let! input_dict := collect_inputs (Node.input node) [] in
  let! output_list := lift_result (sess_run c node node_inputs node_outputs input_dict) in
  reconcile node_outputs output_list (Node.output node) None.

(** ** [execute_node] (lines 43-109)

    [rec] is the recursive call to [execute_onnx]. *)
Definition execute_node_with (c : Collaborators)
    (rec : Model.t -> loc -> bool -> M loc)
    (node : Node.t) (context : loc) (graph : Graph.t) : M unit :=
  if String.eqb (Node.op_type node) "StreamingDataflowPartition" then
    let! model := lift_result (load_partition_model c node) in
    let! r := rec model context true in
    let! other := deref r in
    at_loc context (update other)
  else if String.eqb (Node.domain node) "finn" then
    at_loc context (execute_custom_node c node graph)
  else
    at_loc context (execute_generic c node graph).

(** ** [execute_onnx] (lines 112-181) *)

(** lines 134-145: one round of the binding loop *)
Definition bind_input (input_dict execution_context : loc) (inp_name : string)
    : M unit :=
  let! present := at_loc execution_context (contains inp_name) in
  if present : bool then
    let! cur := at_loc execution_context (getitem inp_name) in
    let! given := at_loc input_dict (getitem inp_name) in
    if decide (shape cur = shape given) then
      at_loc execution_context (setitem inp_name given)
    else
      raise (Exception
               (input_shape_msg inp_name (str_shape (shape cur))
                  (str_shape (shape given))))
  else ret tt.

(** lines 133-147 *)
Definition bind_inputs (input_dict execution_context : loc) : M unit :=
  let! names := at_loc input_dict keys in
  for_each names (bind_input input_dict execution_context).

(** lines 153-171 *)
Definition run_exec_mode (c : Collaborators)
    (execute_node : Node.t -> loc -> Graph.t -> M unit)
    (model : Model.t) (execution_context : loc) : M unit :=
  let graph := Model.graph model in
  let model_exec_mode := Model.get_metadata_prop model "exec_mode" in
  if bool_decide (model_exec_mode = None) || bool_decide (model_exec_mode = Some "") then
    for_each (Graph.node graph)
      (fun node => execute_node node execution_context graph)
  else if bool_decide (model_exec_mode = Some "remote_pynq") then
    at_loc execution_context (remote_exec c model)
  else if bool_decide (model_exec_mode = Some "rtlsim") then
    at_loc execution_context (rtlsim_exec c model)
  else
    raise (Exception unknown_exec_mode_msg).

(** lines 173-181 *)
Definition return_outputs (graph : Graph.t) (execution_context : loc)
    (return_full_exec_context : bool) : M loc :=
  if return_full_exec_context then ret execution_context
  else
    let! output_dict := new_dict [] in
    for_each (Graph.output graph)
      (fun out_tensor =>
         let out_name := name out_tensor in
         let! v := at_loc execution_context (getitem out_name) in
         at_loc output_dict (setitem out_name v)) ;!
    ret output_dict.

Definition execute_onnx_body (c : Collaborators)
    (execute_node : Node.t -> loc -> Graph.t -> M unit)
    (model : Model.t) (input_dict : loc) (return_full_exec_context : bool)
    : M loc :=
  if negb (Model.check_all_tensor_shapes_specified model) then
    raise (Exception "Found unspecified tensor shapes, try infer_shapes")
  else
    let graph := Model.graph model in
    let! execution_context := new_dict (Model.make_empty_exec_context model) in
    bind_inputs input_dict execution_context ;!
    run_exec_mode c execute_node model execution_context ;!
    return_outputs graph execution_context return_full_exec_context.

(** The two functions call each other through partition nodes; [depth]
    bounds how deep partitions may nest, as the interpreter's stack does. *)
Fixpoint execute_onnx (c : Collaborators) (depth : nat)
    (model : Model.t) (input_dict : loc) (return_full_exec_context : bool)
    : M loc :=
  match depth with
  | 0 => raise RecursionError
  | S depth' =>
      execute_onnx_body c (execute_node_with c (execute_onnx c depth'))
        model input_dict return_full_exec_context
  end.

Definition execute_node (c : Collaborators) (depth : nat)
    (node : Node.t) (context : loc) (graph : Graph.t) : M unit :=
  execute_node_with c (execute_onnx c depth) node context graph.

(** ** Fixtures: small graphs and collaborators to run the engine on *)

Module Fixtures.

(** A backend that returns, for each output the single-node model
    declares and in the order it declares them, a buffer of the declared
    shape holding the character codes of the output's name. *)
Definition named_buffer (vi : ValueInfo) : ndarray :=
  {| shape := vi_shape vi;
     data := map (fun a => Z.of_nat (Ascii.nat_of_ascii a))
               (String.list_ascii_of_string (name vi)) |}.

Definition backend (node : Node.t) (node_inputs node_outputs : list ValueInfo)
    (input_dict : dict) : result (list ndarray) :=
  Ok (map named_buffer node_outputs).

(** A backend that returns buffers one column wider than declared. *)
Definition wide_backend (node : Node.t) (node_inputs node_outputs : list ValueInfo)
    (input_dict : dict) : result (list ndarray) :=
  Ok (map (fun vi => zeros (vi_shape vi ++ [3])) node_outputs).

(** Modelled from the spec: [ModelWrapper.make_empty_exec_context] is not
    part of these sources; the spec has it allocate a zero-valued buffer
    of the declared shape for every tensor the graph declares. *)
Definition empty_context (g : Graph.t) : dict :=
  fold_left (fun acc vi => dict_set (name vi) (zeros (vi_shape vi)) acc)
    (Graph.input g ++ Graph.output g ++ Graph.value_info g) [].

Definition model_of (g : Graph.t) (exec_mode : option string) : Model.t :=
  {| Model.graph := g;
     Model.check_all_tensor_shapes_specified := true;
     Model.make_empty_exec_context := empty_context g;
     Model.get_metadata_prop :=
       fun key => if String.eqb key "exec_mode" then exec_mode else None |}.

(** The graph loaded for any partition node: it declares the input [a] and
    has no node and no output. *)
Definition nested_graph : Graph.t :=
  {| Graph.node := []; Graph.input := [mk_ValueInfo "a" [2]];
     Graph.output := []; Graph.value_info := [] |}.

Definition collaborators (run : Node.t -> list ValueInfo -> list ValueInfo ->
                                dict -> result (list ndarray)) : Collaborators :=
  {| sess_run := run;
     execute_custom_node := fun _ _ => raise (CollaboratorError "no handler");
     remote_exec := fun _ => ret tt;
     rtlsim_exec := fun _ => ret tt;
     load_partition_model := fun _ => Ok (model_of nested_graph None) |}.

(** One node with two outputs [a], [b] which the graph declares in the
    opposite order, [b] among its outputs before [a]. *)
Definition split_node : Node.t :=
  {| Node.op_type := "Split"; Node.domain := "";
     Node.input := ["x"]; Node.output := ["a"; "b"] |}.

Definition split_graph : Graph.t :=
  {| Graph.node := [split_node];
     Graph.input := [mk_ValueInfo "x" [4]];
     Graph.output := [mk_ValueInfo "b" [3]; mk_ValueInfo "a" [1]];
     Graph.value_info := [] |}.

(** The same node in a graph that declares only its first output among
    its outputs, and in one that declares only its second; the other name
    is declared as a graph input, so the context has a slot for it. *)
Definition first_only_graph : Graph.t :=
  {| Graph.node := [split_node];
     Graph.input := [mk_ValueInfo "x" [4]; mk_ValueInfo "b" [1]];
     Graph.output := [mk_ValueInfo "a" [1]];
     Graph.value_info := [] |}.

Definition second_only_graph : Graph.t :=
  {| Graph.node := [split_node];
     Graph.input := [mk_ValueInfo "x" [4]; mk_ValueInfo "a" [1]];
     Graph.output := [mk_ValueInfo "b" [3]];
     Graph.value_info := [] |}.

Definition partition_node : Node.t :=
  {| Node.op_type := "StreamingDataflowPartition"; Node.domain := "finn";
     Node.input := []; Node.output := [] |}.

Definition partition_graph : Graph.t :=
  {| Graph.node := [partition_node]; Graph.input := [];
     Graph.output := []; Graph.value_info := [] |}.

End Fixtures.

(** ** Vocabulary of the statements *)

(** The value of the local [list_ind] after the outer loop of lines 90-109
    has gone through [outs], when no round raised. *)
Definition list_ind_after (node_outputs : list ValueInfo) (outs : list string)
    (list_ind : option nat) : option nat :=
  fold_left (fun li outp => scan_list_ind outp node_outputs 0 li) outs list_ind.

(** [value in msg] on Python strings. *)
Fixpoint mentions (value msg : string) : bool :=
  String.prefix value msg
  || match msg with
     | EmptyString => false
     | String _ rest => mentions value rest
     end.

(** The names a partition node can be held to produce: the outputs the
    node declares in the caller's graph, the outputs the nested graph
    declares, and the outputs of the nested graph's own nodes. *)
Definition partition_produced (node : Node.t) (nested : Model.t) : list string :=
  Node.output node
  ++ (name <$> Graph.output (Model.graph nested))
  ++ concat (Node.output <$> Graph.node (Model.graph nested)).

(** [d] without the key [k]: the dictionary the caller would have passed
    had it not supplied [k]. *)
Definition dict_without (k : string) (d : dict) : dict :=
  List.filter (fun kv => negb (String.eqb k (fst kv))) d.

(** A computation run from a store of at least [n] objects leaves every
    one of the first [n] objects as it was, except those in [P], and
    discards none. *)
Definition frames {A} (n : nat) (P : loc -> Prop) (m : M A) : Prop :=
  forall h, n <= length h ->
    length h <= length (snd (m h)) /\
    forall l, l < n -> ~ P l -> snd (m h) !! l = h !! l.

(** A computation that neither reads nor writes the object at [x]: run
    from a store that differs at [x] only, it gives the same outcome and
    a store that differs at [x] only, in the same way. *)
Definition ignores {A} (x : loc) (m : M A) : Prop :=
  forall h d', x < length h ->
    m (<[x := d']> h) = (fst (m h), <[x := d']> (snd (m h)))
    /\ length h <= length (snd (m h)).

(** ** [compare_execution] (lines 202-214) *)

(** [list(d.items())[0][1]] *)
Definition first_item_value (d : dict) : result ndarray :=
  match d with
  | [] => Raise (IndexError "list index out of range")
  | (_, v) :: _ => Ok v
  end.

(** [compare_fxn] is the caller's predicate; the default one is a floating
    point closeness test and is not modelled. *)
Definition compare_execution (c : Collaborators) (depth : nat)
    (model_a model_b : Model.t) (input_dict : loc)
    (compare_fxn : ndarray -> ndarray -> result bool) : M bool :=
  let! out_a := execute_onnx c depth model_a input_dict false in
  let! items_a := deref out_a in
  let! res_a := lift_result (first_item_value items_a) in
  let! out_b := execute_onnx c depth model_b input_dict false in
  let! items_b := deref out_b in
  let! res_b := lift_result (first_item_value items_b) in
  lift_result (compare_fxn res_a res_b).

(** ** [check_two_dict_for_equality] ([tests/custom_op/test_im2col.py],
    lines 12-22)

    The helper is called on dictionaries of lists of strings; [==] on the
    values is equality. *)

Inductive outcome (A : Type) :=
| Returns (a : A)
| RaisesAssertionError (msg : string)
| RaisesKeyError (key : string).
Arguments Returns {A} a.
Arguments RaisesAssertionError {A} msg.
Arguments RaisesKeyError {A} key.

Fixpoint pydict_get {V} (k : string) (d : list (string * V)) : option V :=
  match d with
  | [] => None
  | (k', v) :: d' => if String.eqb k k' then Some v else pydict_get k d'
  end.

(** ["Key: {} is not in both dictionaries".format(key)] *)
Definition missing_key_msg (key : string) : string :=
  "Key: " +:+ key +:+ " is not in both dictionaries".

(** The triple-quoted text of lines 17-18, [.format(key)]. *)
Definition different_values_msg (key : string) : string :=
  "Values for key " +:+ key +:+ " are not the same" +:+ newline +:+ spaces 8
  +:+ "in both dictionaries".

(** lines 13-20, over the keys still to visit *)
Fixpoint check_keys {V} `{EqDecision V} (todo : list string)
    (dict1 dict2 : list (string * V)) : outcome bool :=
  match todo with
  | [] => Returns true
  | key :: rest =>
      match pydict_get key dict2 with
      | None => RaisesAssertionError (missing_key_msg key)
      | Some v2 =>
          match pydict_get key dict1 with
          | None => RaisesKeyError key
          | Some v1 =>
              if decide (v1 = v2) then check_keys rest dict1 dict2
              else RaisesAssertionError (different_values_msg key)
          end
      end
  end.

Definition check_two_dict_for_equality {V} `{EqDecision V}
    (dict1 dict2 : list (string * V)) : outcome bool :=
  check_keys (map fst dict1) dict1 dict2.

(** ** More fixtures *)

Module MoreFixtures.

(** A backend that fails. *)
Definition failing_backend (node : Node.t)
    (node_inputs node_outputs : list ValueInfo) (input_dict : dict)
    : result (list ndarray) :=
  Raise (CollaboratorError "backend failure").

(** A backend that returns a single buffer, for the first output the
    single-node model declares. *)
Definition short_backend (node : Node.t)
    (node_inputs node_outputs : list ValueInfo) (input_dict : dict)
    : result (list ndarray) :=
  Ok (map Fixtures.named_buffer (take 1 node_outputs)).

(** A backend that marks each buffer with its position in the result. *)
Definition positional_backend (node : Node.t)
    (node_inputs node_outputs : list ValueInfo) (input_dict : dict)
    : result (list ndarray) :=
  Ok (imap (fun i vi => {| shape := vi_shape vi; data := [Z.of_nat i] |})
        node_outputs).

(** One node with the single output [y], which the graph declares twice:
    among its outputs and among its value-info. *)
Definition relu_node : Node.t :=
  {| Node.op_type := "Relu"; Node.domain := "";
     Node.input := ["x"]; Node.output := ["y"] |}.

Definition twice_declared_graph : Graph.t :=
  {| Graph.node := [relu_node];
     Graph.input := [mk_ValueInfo "x" [4]];
     Graph.output := [mk_ValueInfo "y" [4]];
     Graph.value_info := [mk_ValueInfo "y" [4]] |}.

(** Two nodes in a row, the second with a custom handler that is not
    registered. *)
Definition custom_node : Node.t :=
  {| Node.op_type := "Im2Col"; Node.domain := "finn";
     Node.input := ["y"]; Node.output := ["z"] |}.

Definition two_node_graph : Graph.t :=
  {| Graph.node := [relu_node; custom_node; relu_node];
     Graph.input := [mk_ValueInfo "x" [4]];
     Graph.output := [mk_ValueInfo "z" [4]];
     Graph.value_info := [mk_ValueInfo "y" [4]] |}.

(** A graph that declares no output. *)
Definition no_output_graph : Graph.t :=
  {| Graph.node := []; Graph.input := [mk_ValueInfo "x" [4]];
     Graph.output := []; Graph.value_info := [] |}.

(** A graph without nodes whose one tensor is both input and output. *)
Definition identity_graph : Graph.t :=
  {| Graph.node := []; Graph.input := [mk_ValueInfo "x" [4]];
     Graph.output := [mk_ValueInfo "x" [4]]; Graph.value_info := [] |}.

(** Collaborators whose partition loader fails. *)
Definition no_loader : Collaborators :=
  {| sess_run := Fixtures.backend;
     execute_custom_node := fun _ _ => raise (CollaboratorError "no handler");
     remote_exec := fun _ => ret tt;
     rtlsim_exec := fun _ => ret tt;
     load_partition_model := fun _ => Raise (CollaboratorError "no such file") |}.

(** [lambda x, y: True] *)
Definition always_equal (x y : ndarray) : result bool := Ok true.

(** A predicate that compares the payloads. *)
Definition same_data (x y : ndarray) : result bool :=
  Ok (bool_decide (data x = data y)).

End MoreFixtures.

(** ** Fixtures for the order of results and for nested partitions *)

Module EdgeFixtures.

(** The buffer a backend computes for the output [n]: it holds the
    character codes of [n]. *)
Definition computed_for (s : list nat) (n : string) : ndarray :=
  Fixtures.named_buffer (mk_ValueInfo n s).

(** A backend that returns its buffers in the order in which the node
    lists its outputs, all of shape (2,). *)
Definition node_order_backend (node : Node.t)
    (node_inputs node_outputs : list ValueInfo) (input_dict : dict)
    : result (list ndarray) :=
  Ok (map (computed_for [2]) (Node.output node)).

(** The node lists [a], [b]; the graph declares [b] before [a], both of
    shape (2,). *)
Definition even_graph : Graph.t :=
  {| Graph.node := [Fixtures.split_node];
     Graph.input := [mk_ValueInfo "x" [4]];
     Graph.output := [mk_ValueInfo "b" [2]; mk_ValueInfo "a" [2]];
     Graph.value_info := [] |}.

(** A partition node whose nested graph consists of one partition node
    and declares no tensor; that inner node is [Fixtures.partition_node],
    told apart by its empty input list, and its nested graph is
    [Fixtures.nested_graph], which declares the input [a]. *)
Definition outer_partition_node : Node.t :=
  {| Node.op_type := "StreamingDataflowPartition"; Node.domain := "finn";
     Node.input := ["x"]; Node.output := [] |}.

Definition middle_graph : Graph.t :=
  {| Graph.node := [Fixtures.partition_node]; Graph.input := [];
     Graph.output := []; Graph.value_info := [] |}.

Definition two_level : Collaborators :=
  {| sess_run := Fixtures.backend;
     execute_custom_node := fun _ _ => raise (CollaboratorError "no handler");
     remote_exec := fun _ => ret tt;
     rtlsim_exec := fun _ => ret tt;
     load_partition_model := fun node =>
       match Node.input node with
       | [] => Ok (Fixtures.model_of Fixtures.nested_graph None)
       | _ => Ok (Fixtures.model_of middle_graph None)
       end |}.

End EdgeFixtures.

(** ** More vocabulary *)

(** [j] is the position of the last declaration of [o] in [node_outputs]. *)
Definition last_declared (node_outputs : list ValueInfo) (o : string) (j : nat)
    : Prop :=
  exists vj, node_outputs !! j = Some vj /\ name vj = o
    /\ forall j' vj', j < j' -> node_outputs !! j' = Some vj' -> name vj' ≠ o.

(** The binding given for [k] fits the slot the context has for [k], if
    both exist. *)
Definition fits (din dctx : dict) (k : string) : Prop :=
  forall cur given,
    dict_get k dctx = Some cur -> dict_get k din = Some given ->
    shape cur = shape given.

(** Same keys in the same order, and the same shape under every key. *)
Definition same_layout (d d' : dict) : Prop :=
  dict_keys d' = dict_keys d
  /\ forall k, shape <$> dict_get k d' = shape <$> dict_get k d.

(** Every entry of [dict1] is an entry of [dict2]. *)
Definition included {V} (dict1 dict2 : list (string * V)) : Prop :=
  forall k v, pydict_get k dict1 = Some v -> pydict_get k dict2 = Some v.

(** A reference into a store of which the first [n] objects are kept and
    after which [k] further objects have been put in. *)
Definition shift (n k : nat) (l : loc) : loc :=
  if decide (l < n) then l else l + k.

(** Two outcomes that agree up to a relation on what is returned; lookups
    outside the store may name different places. *)
Definition same_outcome {A} (R : A -> A -> Prop) (r1 r2 : result A) : Prop :=
  match r1, r2 with
  | Ok a, Ok b => R a b
  | Raise e1, Raise e2 =>
      e1 = e2
      \/ exists l1 l2, e1 = DanglingReference l1 /\ e2 = DanglingReference l2
  | _, _ => False
  end.

(** [m2] does on a store with [k] objects put in after the first [n] what
    [m1] does on the store without them. *)
Definition transports {A} (n k : nat) (R : A -> A -> Prop) (m1 m2 : M A)
    : Prop :=
  forall (B T J : heap), length B = n -> length J = k ->
    exists (B' T' : heap),
      length B' = n /\ length T <= length T'
      /\ snd (m1 (B ++ T)) = B' ++ T'
      /\ snd (m2 (B ++ J ++ T)) = B' ++ J ++ T'
      /\ same_outcome R (fst (m1 (B ++ T))) (fst (m2 (B ++ J ++ T))).

(** * Properties *)

(** ** Dictionaries *)

Lemma dict_get_set_eq k v d : dict_get k (dict_set k v d) = Some v.
Proof.
  induction d as [|[k' v'] d IH]; simpl.
  - by rewrite String.eqb_refl.
  - destruct (String.eqb k k') eqn:E; simpl; rewrite ?String.eqb_refl, ?E; done.
Qed.

Lemma dict_get_set_ne k k' v d :
  k ≠ k' -> dict_get k' (dict_set k v d) = dict_get k' d.
Proof.
  intros Hne. induction d as [|[k0 v0] d IH]; simpl.
  - destruct (String.eqb k' k) eqn:E; [|done].
    apply String.eqb_eq in E. congruence.
  - destruct (String.eqb k k0) eqn:E; simpl.
    + apply String.eqb_eq in E. subst k0.
      destruct (String.eqb k' k) eqn:E'; [|done].
      apply String.eqb_eq in E'. congruence.
    + by rewrite IH.
Qed.

Lemma dict_get_set k k' v d :
  dict_get k' (dict_set k v d) = if decide (k = k') then Some v else dict_get k' d.
Proof.
  case_decide as H; [subst; apply dict_get_set_eq | by apply dict_get_set_ne].
Qed.

Lemma dict_get_Some_keys k v d : dict_get k d = Some v -> k ∈ dict_keys d.
Proof.
  induction d as [|[k' v'] d IH]; simpl; [done|].
  destruct (String.eqb k k') eqn:E.
  - apply String.eqb_eq in E. subst. intros _. apply list_elem_of_here.
  - intros H. apply list_elem_of_further. by apply IH.
Qed.

Lemma dict_get_None_keys k d : dict_get k d = None <-> k ∉ dict_keys d.
Proof.
  induction d as [|[k' v'] d IH]; simpl.
  - split; [intros _; apply not_elem_of_nil | done].
  - destruct (String.eqb k k') eqn:E.
    + apply String.eqb_eq in E. subst. split; [done|].
      intros H. destruct H. apply list_elem_of_here.
    + apply String.eqb_neq in E. rewrite IH. rewrite not_elem_of_cons. tauto.
Qed.

Lemma dict_keys_set k v d :
  forall k', k' ∈ dict_keys (dict_set k v d) <-> k' = k \/ k' ∈ dict_keys d.
Proof.
  intros k'. induction d as [|[k0 v0] d IH]; simpl.
  - rewrite list_elem_of_singleton. split; [auto|].
    intros [?|H]; [done|]. by apply not_elem_of_nil in H.
  - destruct (String.eqb k k0) eqn:E; simpl.
    + apply String.eqb_eq in E. subst k0. rewrite !elem_of_cons. tauto.
    + rewrite !elem_of_cons, IH. tauto.
Qed.

(** An assignment to a key the dictionary already holds leaves its keys,
    and their order, as they were. *)
Lemma dict_keys_set_present k v d :
  k ∈ dict_keys d -> dict_keys (dict_set k v d) = dict_keys d.
Proof.
  induction d as [|[k0 v0] d IH]; simpl.
  - intros H. by apply not_elem_of_nil in H.
  - intros H. destruct (String.eqb k k0) eqn:E; simpl.
    + apply String.eqb_eq in E. by subst.
    + apply String.eqb_neq in E. apply elem_of_cons in H as [?|H]; [done|].
      f_equal. by apply IH.
Qed.

Lemma dict_update_get_None k d other :
  dict_get k other = None -> dict_get k (dict_update d other) = dict_get k d.
Proof.
  unfold dict_update. revert d.
  induction other as [|[k0 v0] other IH]; intros d; simpl; [done|].
  destruct (String.eqb k k0) eqn:E; [done|].
  apply String.eqb_neq in E. intros H. rewrite IH by done.
  apply dict_get_set_ne. congruence.
Qed.

Lemma dict_update_keys k d other :
  k ∈ dict_keys (dict_update d other) <-> k ∈ dict_keys d \/ k ∈ dict_keys other.
Proof.
  unfold dict_update. revert d.
  induction other as [|[k0 v0] other IH]; intros d; simpl.
  - split; [auto|]. intros [?|H]; [done|]. by apply not_elem_of_nil in H.
  - rewrite IH, dict_keys_set, elem_of_cons. tauto.
Qed.

Lemma dict_update_get_Some k v d other :
  NoDup (dict_keys other) -> dict_get k other = Some v ->
  dict_get k (dict_update d other) = Some v.
Proof.
  unfold dict_update. revert d.
  induction other as [|[k0 v0] other IH]; intros d Hnd; simpl; [done|].
  simpl in Hnd. apply NoDup_cons in Hnd as [Hk0 Hnd].
  destruct (String.eqb k k0) eqn:E.
  - apply String.eqb_eq in E. subst k0. intros [= ->].
    change (fold_left _ other ?x) with (dict_update x other).
    rewrite dict_update_get_None by by apply dict_get_None_keys.
    apply dict_get_set_eq.
  - intros H. by apply IH.
Qed.

(** ** The generic-backend path on one context *)

Lemma collect_inputs_state inps acc d : snd (collect_inputs inps acc d) = d.
Proof.
  revert acc. induction inps as [|inp inps IH]; intros acc; simpl; [done|].
  unfold bind, getitem. destruct (dict_get inp d); [apply IH | done].
Qed.

Lemma scan_list_ind_miss outp no i li :
  outp ∉ name <$> no -> scan_list_ind outp no i li = li.
Proof.
  revert i li. induction no as [|vi no IH]; intros i li Hn; simpl; [done|].
  rewrite fmap_cons in Hn. apply not_elem_of_cons in Hn as [Hne Hn].
  rewrite IH by done. apply String.eqb_neq in Hne. by rewrite Hne.
Qed.

(** A scan that finds the name ends on its last declaration. *)
Lemma scan_list_ind_hit outp no i li :
  outp ∈ name <$> no ->
  exists j vi, scan_list_ind outp no i li = Some (i + j)
    /\ no !! j = Some vi /\ name vi = outp.
Proof.
  revert i li. induction no as [|vi no IH]; intros i li Hin; simpl.
  - by apply elem_of_nil in Hin.
  - destruct (decide (outp ∈ name <$> no)) as [Hrest|Hrest].
    + destruct (IH (S i) (if String.eqb outp (name vi) then Some i else li) Hrest)
        as (j & vj & Hs & Hj & Hname).
      exists (S j), vj. split; [|done]. rewrite Hs. f_equal. lia.
    + rewrite scan_list_ind_miss by done.
      rewrite fmap_cons in Hin. apply elem_of_cons in Hin as [->|Hin]; [|done].
      rewrite String.eqb_refl. exists 0, vi. split; [f_equal; lia | done].
Qed.

Lemma scan_list_ind_Some outp no i k :
  exists j, scan_list_ind outp no i (Some k) = Some j.
Proof.
  destruct (decide (outp ∈ name <$> no)) as [H|H].
  - destruct (scan_list_ind_hit outp no i (Some k) H) as (j & ? & -> & _). eauto.
  - rewrite scan_list_ind_miss by done. eauto.
Qed.

Lemma NoDup_names_lookup (no : list ValueInfo) i j vi vj :
  NoDup (name <$> no) -> no !! i = Some vi -> no !! j = Some vj ->
  name vi = name vj -> i = j.
Proof.
  intros Hnd Hi Hj Hn.
  eapply (NoDup_lookup (name <$> no) i j (name vi)); [done| |].
  - by rewrite list_lookup_fmap, Hi.
  - by rewrite list_lookup_fmap, Hj, Hn.
Qed.

(** One round for an output whose shape agrees: the buffer at the index the
    scan leaves is stored, and the index is handed to the next round. *)
Lemma reconcile_output_store no ol outp li i buf cur d :
  scan_list_ind outp no 0 li = Some i -> ol !! i = Some buf ->
  dict_get outp d = Some cur -> shape buf = shape cur ->
  reconcile_output no ol outp li d = (Ok (Some i), dict_set outp buf d).
Proof.
  intros Hs Hb Hc Hsh. unfold reconcile_output. rewrite Hs, Hb.
  unfold bind, getitem. rewrite Hc. by rewrite decide_False by (by intros ?).
Qed.

(** One round for an output whose shape disagrees: building the message
    fails, so what is raised is not the shape report. *)
Lemma reconcile_output_mismatch no ol outp li i buf cur d :
  scan_list_ind outp no 0 li = Some i -> ol !! i = Some buf ->
  dict_get outp d = Some cur -> shape buf ≠ shape cur ->
  reconcile_output no ol outp li d
  = (Raise (AttributeError "'tuple' object has no attribute 'shape'"), d).
Proof.
  intros Hs Hb Hc Hsh. unfold reconcile_output. rewrite Hs, Hb.
  unfold bind, getitem. rewrite Hc. by rewrite decide_True by done.
Qed.

Lemma reconcile_output_unbound no ol outp d :
  outp ∉ name <$> no ->
  reconcile_output no ol outp None d
  = (Raise (UnboundLocalError
              "local variable 'list_ind' referenced before assignment"), d).
Proof.
  intros H. unfold reconcile_output. by rewrite scan_list_ind_miss by done.
Qed.

(** A round that returns hands on the index its scan left, and that index
    is within the result list. *)
Lemma reconcile_output_Ok no ol outp li li' d d' :
  reconcile_output no ol outp li d = (Ok li', d') ->
  li' = scan_list_ind outp no 0 li /\ exists i, li' = Some i /\ is_Some (ol !! i).
Proof.
  unfold reconcile_output.
  destruct (scan_list_ind outp no 0 li) as [i|]; [|done].
  destruct (ol !! i) as [buf|] eqn:Hb; [|done].
  unfold bind, getitem. destruct (dict_get outp d); [|done].
  case_decide; [done|]. simpl. intros [= <- <-]. split; [done|].
  exists i. by rewrite Hb.
Qed.

Lemma reconcile_app no ol pre rest li d d1 :
  reconcile no ol pre li d = (Ok tt, d1) ->
  reconcile no ol (pre ++ rest) li d
  = reconcile no ol rest (list_ind_after no pre li) d1.
Proof.
  revert li d. induction pre as [|o pre IH]; intros li d; simpl.
  - by intros [= ->].
  - unfold bind at 1 2.
    destruct (reconcile_output no ol o li d) as [[li'|e] d'] eqn:Ho; [|done].
    intros H. rewrite (IH _ _ H).
    apply reconcile_output_Ok in Ho as [-> _]. done.
Qed.

(** After a non-empty run of rounds that all returned, [list_ind] holds the
    index of a declaration of one of their outputs, within the result list. *)
Lemma list_ind_after_Ok no ol pre li d d1 :
  reconcile no ol pre li d = (Ok tt, d1) -> pre ≠ [] ->
  exists i, list_ind_after no pre li = Some i /\ is_Some (ol !! i)
    /\ ((exists prev vi, prev ∈ pre /\ no !! i = Some vi /\ name vi = prev)
        \/ li = Some i).
Proof.
  revert li d. induction pre as [|o pre IH]; intros li d H Hne; [done|].
  simpl in H. unfold bind in H.
  destruct (reconcile_output no ol o li d) as [[li'|e] d'] eqn:Ho; [|done].
  apply reconcile_output_Ok in Ho as (-> & i & Hi & Hol).
  unfold list_ind_after. simpl. fold (list_ind_after no pre (scan_list_ind o no 0 li)).
  assert (Hthis : (exists prev vi, prev ∈ o :: pre /\ no !! i = Some vi /\ name vi = prev)
                  \/ li = Some i).
  { destruct (decide (o ∈ name <$> no)) as [Hin|Hin].
    - destruct (scan_list_ind_hit o no 0 li Hin) as (j & vj & Hs & Hj & Hn).
      rewrite Hs in Hi. injection Hi as <-. left. exists o, vj.
      split; [apply list_elem_of_here | done].
    - rewrite scan_list_ind_miss in Hi by done. by right. }
  destruct pre as [|o' pre'].
  - simpl. exists i. by rewrite Hi.
  - destruct (IH _ _ H) as (i' & Hi' & Hol' & Hsrc); [done|].
    exists i'. split; [done|]. split; [done|].
    destruct Hsrc as [(prev & vi & Hp & Hl & Hn)|Hsame].
    + left. exists prev, vi. split; [by apply list_elem_of_further | done].
    + rewrite Hi in Hsame. injection Hsame as ->. done.
Qed.

(** When every output is declared once and every returned buffer has the
    shape of its slot, no round raises and each declared name ends up with
    the buffer at the position of its declaration. *)
Lemma reconcile_ok no ol outs li d :
  NoDup (name <$> no) ->
  (forall o, o ∈ outs -> o ∈ name <$> no) ->
  (forall i vi, no !! i = Some vi ->
     exists buf cur, ol !! i = Some buf /\ dict_get (name vi) d = Some cur
       /\ shape buf = shape cur) ->
  exists d', reconcile no ol outs li d = (Ok tt, d')
    /\ (forall i vi, no !! i = Some vi -> name vi ∈ outs ->
          dict_get (name vi) d' = ol !! i)
    /\ (forall k, k ∉ outs -> dict_get k d' = dict_get k d).
Proof.
  intros Hnd. revert li d.
  induction outs as [|o outs IH]; intros li d Hdecl Hshape.
  - exists d. split; [done|]. split; [|done].
    intros i vi _ H. by apply elem_of_nil in H.
  - destruct (scan_list_ind_hit o no 0 li) as (j & vj & Hs & Hj & Hn).
    { apply Hdecl, list_elem_of_here. }
    destruct (Hshape j vj Hj) as (buf & cur & Hb & Hc & Hsh).
    rewrite Hn in Hc. simpl in Hs.
    destruct (IH (Some j) (dict_set o buf d)) as (d' & Hrun & Hout & Hframe).
    { intros o' Ho'. by apply Hdecl, list_elem_of_further. }
    { intros i vi Hi. destruct (Hshape i vi Hi) as (buf' & cur' & Hb' & Hc' & Hsh').
      destruct (decide (name vi = o)) as [Heq|Hne].
      - assert (i = j) as -> by (eapply NoDup_names_lookup; eauto; congruence).
        exists buf, buf. rewrite Heq, dict_get_set_eq. done.
      - exists buf', cur'. by rewrite dict_get_set_ne by done. }
    exists d'. split; [|split].
    + simpl. unfold bind.
      by rewrite (reconcile_output_store no ol o li j buf cur d).
    + intros i vi Hi Hin. destruct (decide (name vi ∈ outs)) as [Hr|Hr].
      * by apply Hout.
      * apply elem_of_cons in Hin as [Heq|?]; [|done].
        assert (i = j) as -> by (eapply NoDup_names_lookup; eauto; congruence).
        rewrite Hframe by done. by rewrite Heq, dict_get_set_eq.
    + intros k Hk. apply not_elem_of_cons in Hk as [Hne Hk].
      rewrite Hframe by done. by apply dict_get_set_ne.
Qed.

Lemma node_outputs_of_filter node graph :
  node_outputs_of node graph
  = List.filter (name_in (Node.output node))
      (Graph.output graph ++ Graph.value_info graph).
Proof. unfold node_outputs_of. by rewrite List.filter_app. Qed.

Lemma filter_names_elem (f : ValueInfo -> bool) l n :
  n ∈ name <$> List.filter f l -> n ∈ name <$> l.
Proof.
  induction l as [|vi l IH]; cbn [List.filter]; [done|].
  destruct (f vi); rewrite ?fmap_cons, ?elem_of_cons; intuition.
Qed.

Lemma filter_names_NoDup (f : ValueInfo -> bool) l :
  NoDup (name <$> l) -> NoDup (name <$> List.filter f l).
Proof.
  induction l as [|vi l IH]; cbn [List.filter]; [done|].
  rewrite fmap_cons. intros [Hn Hnd]%NoDup_cons.
  destruct (f vi); [|by apply IH].
  rewrite fmap_cons. apply NoDup_cons. split; [|by apply IH].
  intros H. by apply Hn, (filter_names_elem f).
Qed.

Lemma node_outputs_of_declared node graph o :
  o ∈ Node.output node ->
  o ∈ name <$> (Graph.output graph ++ Graph.value_info graph) ->
  o ∈ name <$> node_outputs_of node graph.
Proof.
  rewrite node_outputs_of_filter.
  induction (Graph.output graph ++ Graph.value_info graph) as [|vi l IH];
    cbn [List.filter]; [done|].
  intros Ho. rewrite fmap_cons, elem_of_cons. intros [->|Hin].
  - unfold name_in at 1. rewrite bool_decide_eq_true_2 by done.
    rewrite fmap_cons. apply list_elem_of_here.
  - destruct (name_in (Node.output node) vi); [rewrite fmap_cons|]; auto.
    apply list_elem_of_further; auto.
Qed.

Lemma node_outputs_of_from_node node graph i vi :
  node_outputs_of node graph !! i = Some vi -> name vi ∈ Node.output node.
Proof.
  intros H. apply list_elem_of_lookup_2 in H.
  rewrite node_outputs_of_filter in H.
  apply list_elem_of_In, List.filter_In in H as [_ H].
  unfold name_in in H. by apply bool_decide_eq_true in H.
Qed.

(** The generic path up to the reconciliation loop. *)
Lemma execute_generic_reconcile c node graph d input_dict ol :
  fst (collect_inputs (Node.input node) [] d) = Ok input_dict ->
  sess_run c node (node_inputs_of node graph) (node_outputs_of node graph)
    input_dict = Ok ol ->
  execute_generic c node graph d
  = reconcile (node_outputs_of node graph) ol (Node.output node) None d.
Proof.
  intros Hin Hrun. unfold execute_generic, bind at 1.
  pose proof (collect_inputs_state (Node.input node) [] d) as Hst.
  destruct (collect_inputs (Node.input node) [] d) as [r d0].
  simpl in Hin, Hst. subst r d0.
  unfold bind, lift_result. by rewrite Hrun.
Qed.

(** ** Dispatch *)

Lemma execute_node_generic c depth node ctx graph :
  Node.op_type node ≠ "StreamingDataflowPartition" ->
  Node.domain node ≠ "finn" ->
  execute_node c depth node ctx graph = at_loc ctx (execute_generic c node graph).
Proof.
  intros Hop Hdom. unfold execute_node, execute_node_with.
  apply String.eqb_neq in Hop, Hdom. by rewrite Hop, Hdom.
Qed.

Lemma at_loc_run {A} l (f : D A) (h : heap) d :
  h !! l = Some d -> at_loc l f h = (fst (f d), <[l := snd (f d)]> h).
Proof. intros H. unfold at_loc. rewrite H. by destruct (f d). Qed.

(** ** Which objects of the store a computation may change *)

Lemma frames_ret {A} n P (a : A) : frames n P (ret a).
Proof. by intros h Hn. Qed.

Lemma frames_raise {A} n P e : frames (A:=A) n P (raise e).
Proof. by intros h Hn. Qed.

Lemma frames_lift_result {A} n P (r : result A) : frames n P (lift_result r).
Proof. by intros h Hn. Qed.

(** Sequencing, where the continuation may rely on a fact [Q] about the
    value the first computation returns. *)
Lemma frames_bind_val {A B} n P (Q : A -> Prop) (m : M A) (k : A -> M B) :
  frames n P m ->
  (forall h a h', n <= length h -> m h = (Ok a, h') -> Q a) ->
  (forall a, Q a -> frames n P (k a)) ->
  frames n P (bind m k).
Proof.
  intros Hm HQ Hk h Hn. unfold bind.
  destruct (Hm h Hn) as [Hlen Hsame].
  destruct (m h) as [[a|e] h1] eqn:E; simpl in *; [|done].
  destruct (Hk a (HQ h a h1 Hn E) h1) as [Hlen' Hsame']; [lia|].
  split; [lia|]. intros l Hl HP. rewrite Hsame' by done. by apply Hsame.
Qed.

Lemma frames_bind {A B} n P (m : M A) (k : A -> M B) :
  frames n P m -> (forall a, frames n P (k a)) -> frames n P (bind m k).
Proof.
  intros Hm Hk. apply (frames_bind_val n P (fun _ => True)); auto.
Qed.

Lemma frames_for_each {A} n P (l : list A) (body : A -> M unit) :
  (forall x, frames n P (body x)) -> frames n P (for_each l body).
Proof.
  intros Hb. induction l as [|x l IH]; simpl.
  - apply frames_ret.
  - apply frames_bind; auto.
Qed.

Lemma frames_at_loc {A} n (P : loc -> Prop) l (f : D A) :
  (l < n -> P l) -> frames n P (at_loc l f).
Proof.
  intros Hl h Hn. unfold at_loc. destruct (h !! l) as [d|] eqn:E; [|done].
  destruct (f d) as [r d']. simpl. rewrite length_insert. split; [done|].
  intros l' Hl' HP. apply list_lookup_insert_ne. intros ->. auto.
Qed.

Lemma at_loc_readonly {A} l (f : D A) h :
  (forall d, snd (f d) = d) -> snd (at_loc l f h) = h.
Proof.
  intros Hf. unfold at_loc. destruct (h !! l) as [d|] eqn:E; [|done].
  specialize (Hf d). destruct (f d) as [r d']. simpl in *. subst d'.
  by apply list_insert_id.
Qed.

Lemma frames_at_loc_readonly {A} n P l (f : D A) :
  (forall d, snd (f d) = d) -> frames n P (at_loc l f).
Proof. intros Hf h Hn. by rewrite at_loc_readonly. Qed.

Lemma getitem_state k d : snd (getitem k d) = d.
Proof. unfold getitem. by destruct (dict_get k d). Qed.

Lemma frames_new_dict n P d : frames n P (new_dict d).
Proof.
  intros h Hn. unfold new_dict. simpl. rewrite length_app. simpl.
  split; [lia|]. intros l Hl _. apply lookup_app_l. lia.
Qed.

Lemma frames_deref n P l : frames n P (deref l).
Proof. intros h Hn. unfold deref. by destruct (h !! l). Qed.

Lemma frames_bind_input n (P : loc -> Prop) input_dict ctx inp_name :
  (ctx < n -> P ctx) -> frames n P (bind_input input_dict ctx inp_name).
Proof.
  intros Hctx. unfold bind_input.
  apply frames_bind; [by apply frames_at_loc|]. intros [|]; [|apply frames_ret].
  apply frames_bind; [by apply frames_at_loc|]. intros cur.
  apply frames_bind; [apply frames_at_loc_readonly, getitem_state|]. intros given.
  case_decide; [by apply frames_at_loc | apply frames_raise].
Qed.

Lemma frames_bind_inputs n (P : loc -> Prop) input_dict ctx :
  (ctx < n -> P ctx) -> frames n P (bind_inputs input_dict ctx).
Proof.
  intros Hctx. unfold bind_inputs.
  apply frames_bind; [by apply frames_at_loc_readonly|]. intros names.
  apply frames_for_each. intros x. by apply frames_bind_input.
Qed.

Lemma frames_return_outputs n (P : loc -> Prop) graph ctx full :
  frames n P (return_outputs graph ctx full).
Proof.
  unfold return_outputs. destruct full; [apply frames_ret|].
  apply (frames_bind_val n P (fun l => n <= l)); [apply frames_new_dict| |].
  - intros h a h' Hn [= <- _]. done.
  - intros out Hout. apply frames_bind; [|intros; apply frames_ret].
    apply frames_for_each. intros vi.
    apply frames_bind; [apply frames_at_loc_readonly, getitem_state|]. intros v.
    apply frames_at_loc. lia.
Qed.

Lemma frames_execute_node_with c rec n (P : loc -> Prop) node ctx graph :
  (forall model input full, frames n P (rec model input full)) ->
  (ctx < n -> P ctx) ->
  frames n P (execute_node_with c rec node ctx graph).
Proof.
  intros Hrec Hctx. unfold execute_node_with.
  destruct (String.eqb (Node.op_type node) _).
  - apply frames_bind; [apply frames_lift_result|]. intros model.
    apply frames_bind; [apply Hrec|]. intros r.
    apply frames_bind; [apply frames_deref|]. intros other.
    by apply frames_at_loc.
  - destruct (String.eqb (Node.domain node) _); by apply frames_at_loc.
Qed.

Lemma frames_run_exec_mode c exec n (P : loc -> Prop) model ctx :
  (forall node graph, frames n P (exec node ctx graph)) ->
  (ctx < n -> P ctx) ->
  frames n P (run_exec_mode c exec model ctx).
Proof.
  intros Hexec Hctx. unfold run_exec_mode.
  destruct (_ || _); [apply frames_for_each; intros; apply Hexec|].
  repeat case_bool_decide; try by apply frames_at_loc. apply frames_raise.
Qed.

(** A call of [execute_onnx] changes no object that existed before it. *)
Lemma frames_execute_onnx c depth n P model input_dict full :
  frames n P (execute_onnx c depth model input_dict full).
Proof.
  revert n P model input_dict full.
  induction depth as [|depth IH]; intros n P model input_dict full; simpl.
  - apply frames_raise.
  - unfold execute_onnx_body.
    destruct (negb _); [apply frames_raise|].
    apply (frames_bind_val n P (fun l => n <= l)); [apply frames_new_dict| |].
    + intros h a h' Hn [= <- _]. done.
    + intros ctx Hctx.
      apply frames_bind; [apply frames_bind_inputs; lia|]. intros _.
      apply frames_bind; [|intros _; apply frames_return_outputs].
      apply frames_run_exec_mode; [|lia].
      intros node graph. apply frames_execute_node_with; [|lia].
      intros. apply IH.
Qed.

Lemma frames_execute_node c depth n (P : loc -> Prop) node ctx graph :
  (ctx < n -> P ctx) -> frames n P (execute_node c depth node ctx graph).
Proof.
  intros Hctx. apply frames_execute_node_with; [|done].
  intros. apply frames_execute_onnx.
Qed.

(** The reference a call of [execute_onnx] returns is to an object
    allocated during the call. *)
Lemma execute_onnx_fresh c depth model input_dict full h r h' :
  execute_onnx c depth model input_dict full h = (Ok r, h') ->
  length h <= r < length h'.
Proof.
  destruct depth as [|depth]; simpl; [done|].
  unfold execute_onnx_body. destruct (negb _); [done|].
  unfold bind at 1. simpl. unfold bind at 1.
  pose proof (frames_bind_inputs (S (length h)) (fun l => l = length h)
                input_dict (length h) (fun _ => eq_refl) (h ++ [Model.make_empty_exec_context model])) as [Hlen1 _].
  { rewrite length_app. simpl. lia. }
  rewrite length_app in Hlen1. simpl in Hlen1.
  destruct (bind_inputs _ _ _) as [[[]|e] h1]; [|done]. simpl in Hlen1.
  unfold bind at 1.
  match goal with |- context [run_exec_mode c ?e model (length h) h1] =>
    pose proof (frames_run_exec_mode c e (S (length h)) (fun l => l = length h)
                  model (length h)) as Hrun end.
  destruct (Hrun) with (h := h1) as [Hlen2 _].
  { intros node graph. apply frames_execute_node_with; [|done].
    intros. apply frames_execute_onnx. }
  { done. }
  { lia. }
  destruct (run_exec_mode _ _ _ _ _) as [[[]|e] h2]; [|done]. simpl in Hlen2.
  unfold return_outputs. destruct full.
  - intros [= <- <-]. lia.
  - unfold bind at 1. simpl. unfold bind at 1.
    match goal with |- context [for_each ?l ?b ?hh] =>
      assert (length hh <= length (snd (for_each l b hh))) as Hlen3;
      [|destruct (for_each l b hh) as [[[]|e] h3]; [|done]] end.
    { apply (frames_for_each (S (length h2)) (fun l => l = length h2)).
      - intros vi.
        apply frames_bind; [apply frames_at_loc_readonly, getitem_state|].
        intros v. by apply frames_at_loc.
      - rewrite length_app. simpl. lia. }
    rewrite length_app in Hlen3. simpl in Hlen3.
    intros [= <- <-]. lia.
Qed.

(** * Main results *)

(** When the result list holds, at the position of each declaration of the
    single-node model, the buffer computed for the declared name, and every
    name in [outs] is declared, the rounds that return leave under each name
    of [outs] the buffer computed for it. *)
Lemma reconcile_computed no ol outs (computed_for : string -> ndarray) :
  (forall i vi, no !! i = Some vi -> ol !! i = Some (computed_for (name vi))) ->
  (forall o, o ∈ outs -> o ∈ name <$> no) ->
  forall li d d',
    reconcile no ol outs li d = (Ok tt, d') ->
    (forall o, o ∈ outs -> dict_get o d' = Some (computed_for o))
    /\ (forall k, k ∉ outs -> dict_get k d' = dict_get k d).
Proof.
  intros Hol. induction outs as [|o outs IH]; intros Hdecl li d d'.
  - intros [= <-]. split; [|done]. intros o Ho. by apply elem_of_nil in Ho.
  - simpl. unfold bind at 1.
    destruct (scan_list_ind_hit o no 0 li) as (j & vj & Hs & Hj & Hn).
    { apply Hdecl, list_elem_of_here. }
    simpl in Hs. pose proof (Hol j vj Hj) as Hbuf. rewrite Hn in Hbuf.
    unfold reconcile_output. rewrite Hs, Hbuf. unfold bind, getitem.
    destruct (dict_get o d) as [cur|] eqn:Hcur; [|done].
    case_decide; [done|]. simpl. intros Hrest.
    apply IH in Hrest as [Hout Hframe].
    2:{ intros o' Ho'. by apply Hdecl, list_elem_of_further. }
    split.
    + intros o' Ho'. destruct (decide (o' ∈ outs)) as [Hin|Hnin]; [auto|].
      apply elem_of_cons in Ho' as [->|?]; [|done].
      rewrite Hframe by done. apply dict_get_set_eq.
    + intros k [Hne Hk]%not_elem_of_cons. rewrite Hframe by done.
      by apply dict_get_set_ne.
Qed.

(** Under the same premises the rounds do return when the buffer computed
    for each name has the shape of the slot the context has for it. *)
Lemma reconcile_computed_returns no ol outs (computed_for : string -> ndarray) :
  (forall i vi, no !! i = Some vi -> ol !! i = Some (computed_for (name vi))) ->
  (forall o, o ∈ outs -> o ∈ name <$> no) ->
  forall li d,
    (forall o, o ∈ outs ->
       exists cur, dict_get o d = Some cur
         /\ shape (computed_for o) = shape cur) ->
    fst (reconcile no ol outs li d) = Ok tt.
Proof.
  intros Hol. induction outs as [|o outs IH]; intros Hdecl li d Hshape; [done|].
  simpl. unfold bind at 1.
  destruct (scan_list_ind_hit o no 0 li) as (j & vj & Hs & Hj & Hn).
  { apply Hdecl, list_elem_of_here. }
  simpl in Hs. pose proof (Hol j vj Hj) as Hbuf. rewrite Hn in Hbuf.
  destruct (Hshape o) as (cur & Hcur & Hsh); [apply list_elem_of_here|].
  rewrite (reconcile_output_store no ol o li j (computed_for o) cur) by done.
  apply IH.
  - intros o' Ho'. by apply Hdecl, list_elem_of_further.
  - intros o' Ho'. rewrite dict_get_set. case_decide as Heq.
    + subst o'. eauto.
    + by apply Hshape, list_elem_of_further.
Qed.

(** C1, as the code has it: in the generic-backend path, with the inputs of
    the node read from the context and a result list obtained from the
    backend, let that list be in the order in which the single-node model
    declares its outputs, with the buffer computed for each declared name at
    the position of its declaration, and let every output name of the node
    have a declaration among the graph's outputs and value-info.  Then
    whenever the call returns, each output name of the node holds the buffer
    computed for that name, whatever order the node lists its outputs in,
    and no other slot of the context has changed; and the call does return
    when each of these buffers has the shape of the slot pre-allocated for
    its name. *)
Theorem generic_path_reconciles_by_name
    c depth node ctx graph (h : heap) d input_dict output_list
    (computed_for : string -> ndarray) :
  Node.op_type node ≠ "StreamingDataflowPartition" ->
  Node.domain node ≠ "finn" ->
  h !! ctx = Some d ->
  fst (collect_inputs (Node.input node) [] d) = Ok input_dict ->
  sess_run c node (node_inputs_of node graph) (node_outputs_of node graph)
    input_dict = Ok output_list ->
  (forall i vi, node_outputs_of node graph !! i = Some vi ->
     output_list !! i = Some (computed_for (name vi))) ->
  (forall o, o ∈ Node.output node ->
     o ∈ name <$> (Graph.output graph ++ Graph.value_info graph)) ->
  (forall h', execute_node c depth node ctx graph h = (Ok tt, h') ->
     exists d',
       h' = <[ctx := d']> h
       /\ (forall o, o ∈ Node.output node ->
             dict_get o d' = Some (computed_for o))
       /\ (forall k, k ∉ Node.output node -> dict_get k d' = dict_get k d))
  /\ ((forall o, o ∈ Node.output node ->
         exists cur, dict_get o d = Some cur
           /\ shape (computed_for o) = shape cur) ->
      fst (execute_node c depth node ctx graph h) = Ok tt).
Proof.
  intros Hop Hdom Hctx Hin Hrun Hol Hdecl.
  assert (Hdecl' : forall o, o ∈ Node.output node ->
                     o ∈ name <$> node_outputs_of node graph).
  { intros o Ho. apply node_outputs_of_declared; auto. }
  rewrite execute_node_generic by done.
  rewrite (at_loc_run _ _ _ d) by done.
  rewrite (execute_generic_reconcile c node graph d input_dict output_list)
    by done.
  split.
  - intros h' Hret.
    destruct (reconcile (node_outputs_of node graph) output_list
                (Node.output node) None d) as [r d'] eqn:Hrec.
    simpl in Hret. injection Hret as -> <-.
    exists d'. split; [done|].
    by apply (reconcile_computed _ _ _ computed_for Hol Hdecl' None d d').
  - intros Hshape. simpl.
    by apply (reconcile_computed_returns _ _ _ computed_for).
Qed.

(** The node lists its outputs as [a], [b]; the graph declares [b] before
    [a], so the backend returns the buffer of [b] first.  Each name still
    gets its own buffer. *)
Lemma generic_path_reconciles_by_name_witness :
  exists d',
    execute_node (Fixtures.collaborators Fixtures.backend) 1 Fixtures.split_node 0
      Fixtures.split_graph [Fixtures.empty_context Fixtures.split_graph]
    = (Ok tt, [d'])
    /\ dict_get "a" d' = Some (Fixtures.named_buffer (mk_ValueInfo "a" [1]))
    /\ dict_get "b" d' = Some (Fixtures.named_buffer (mk_ValueInfo "b" [3])).
Proof.
  destruct (generic_path_reconciles_by_name
              (Fixtures.collaborators Fixtures.backend) 1 Fixtures.split_node 0
              Fixtures.split_graph [Fixtures.empty_context Fixtures.split_graph]
              (Fixtures.empty_context Fixtures.split_graph)
              [("x", zeros [4])]
              [Fixtures.named_buffer (mk_ValueInfo "b" [3]);
               Fixtures.named_buffer (mk_ValueInfo "a" [1])]
              (fun n => Fixtures.named_buffer
                          (mk_ValueInfo n (if String.eqb n "b" then [3] else [1]))))
    as [Hret _].
  - done.
  - done.
  - reflexivity.
  - reflexivity.
  - reflexivity.
  - intros [|[|i]] vi; vm_compute; intros [= <-]; reflexivity.
  - intros o Ho.
    repeat (apply elem_of_cons in Ho as [->|Ho]);
      [..|by apply elem_of_nil in Ho]; vm_compute; repeat constructor.
  - destruct (Hret (snd (execute_node
                           (Fixtures.collaborators Fixtures.backend) 1
                           Fixtures.split_node 0 Fixtures.split_graph
                           [Fixtures.empty_context Fixtures.split_graph]))
                eq_refl) as (d' & Hh' & Hout & _).
    exists d'. split.
    { transitivity
        (Ok tt,
         snd (execute_node (Fixtures.collaborators Fixtures.backend) 1
                Fixtures.split_node 0 Fixtures.split_graph
                [Fixtures.empty_context Fixtures.split_graph]));
        [reflexivity | f_equal; exact Hh']. }
    split.
    + apply (Hout "a"). repeat constructor.
    + apply (Hout "b"). apply list_elem_of_further. repeat constructor.
Defined.

(** C1, as stated, fails in three ways.  A backend that returns its buffers
    in the order in which the node lists its outputs, where the graph
    declares them in the other order: [a] receives the buffer computed for
    [b] and [b] the one computed for [a].  An output name without a
    declaration among the graph's outputs: [b] receives the buffer computed
    for [a].  A buffer of another shape than its slot: nothing is stored. *)
Lemma generic_path_stores_wrong_buffer :
  execute_node (Fixtures.collaborators EdgeFixtures.node_order_backend) 1
    Fixtures.split_node 0 EdgeFixtures.even_graph
    [Fixtures.empty_context EdgeFixtures.even_graph]
  = (Ok tt, [[("x", zeros [4]);
              ("b", EdgeFixtures.computed_for [2] "a");
              ("a", EdgeFixtures.computed_for [2] "b")]])
  /\ execute_node (Fixtures.collaborators Fixtures.backend) 1
       Fixtures.split_node 0 Fixtures.first_only_graph
       [Fixtures.empty_context Fixtures.first_only_graph]
     = (Ok tt, [[("x", zeros [4]);
                 ("b", EdgeFixtures.computed_for [1] "a");
                 ("a", EdgeFixtures.computed_for [1] "a")]])
  /\ execute_node (Fixtures.collaborators Fixtures.wide_backend) 1
       Fixtures.split_node 0 Fixtures.split_graph
       [Fixtures.empty_context Fixtures.split_graph]
     = (Raise (AttributeError "'tuple' object has no attribute 'shape'"),
        [Fixtures.empty_context Fixtures.split_graph])
  /\ EdgeFixtures.computed_for [2] "a" ≠ EdgeFixtures.computed_for [2] "b"
  /\ EdgeFixtures.computed_for [1] "a" ≠ EdgeFixtures.computed_for [1] "b".
Proof. repeat split; (reflexivity || by intros [=]). Qed.

(** C3: a backend buffer whose shape differs from the pre-allocated slot
    makes the call fail, but not with the shape report: here the backend
    returns shape (1, 3) for the slot of [a], of shape (1,), building the
    message evaluates [.shape.shape], and an [AttributeError] is what the
    caller sees; the context is left as it was. *)
Theorem output_shape_mismatch_raises_attribute_error :
  execute_node (Fixtures.collaborators Fixtures.wide_backend) 1
    Fixtures.split_node 0 Fixtures.split_graph
    [Fixtures.empty_context Fixtures.split_graph]
  = (Raise (AttributeError "'tuple' object has no attribute 'shape'"),
     [Fixtures.empty_context Fixtures.split_graph]).
Proof. reflexivity. Qed.

(** C9: once the inputs are gathered and the backend has returned, an output
    name of the node without a declaration among the graph's outputs and
    value-info makes the reconciliation loop go wrong in one of two ways.  If
    it is the node's first output, [list_ind] is read unassigned and an
    [UnboundLocalError] is raised, the context untouched.  If it comes after
    outputs whose rounds returned, the index left by an earlier output is used
    again: provided the slot of the undeclared name has the shape of that
    earlier output's buffer, this buffer is stored under the undeclared name
    and the loop goes on without an error. *)
Theorem generic_path_undeclared_output c node graph d input_dict output_list :
  fst (collect_inputs (Node.input node) [] d) = Ok input_dict ->
  sess_run c node (node_inputs_of node graph) (node_outputs_of node graph)
    input_dict = Ok output_list ->
  (forall o rest,
     Node.output node = o :: rest ->
     o ∉ name <$> node_outputs_of node graph ->
     execute_generic c node graph d
     = (Raise (UnboundLocalError
                 "local variable 'list_ind' referenced before assignment"), d))
  /\ (forall pre o rest d1,
        Node.output node = pre ++ o :: rest ->
        pre ≠ [] ->
        o ∉ name <$> node_outputs_of node graph ->
        reconcile (node_outputs_of node graph) output_list pre None d
        = (Ok tt, d1) ->
        exists i prev vi buf,
          prev ∈ pre /\ node_outputs_of node graph !! i = Some vi
          /\ name vi = prev /\ prev ≠ o /\ output_list !! i = Some buf
          /\ forall cur,
               dict_get o d1 = Some cur -> shape buf = shape cur ->
               execute_generic c node graph d
               = reconcile (node_outputs_of node graph) output_list rest
                   (Some i) (dict_set o buf d1)).
Proof.
  intros Hin Hrun. split.
  - intros o rest Hout Hmiss.
    rewrite (execute_generic_reconcile c node graph d input_dict output_list)
      by done.
    rewrite Hout. simpl. unfold bind.
    by rewrite reconcile_output_unbound by done.
  - intros pre o rest d1 Hout Hne Hmiss Hpre.
    destruct (list_ind_after_Ok _ _ _ _ _ _ Hpre Hne)
      as (i & Hafter & [buf Hbuf] & [(prev & vi & Hp & Hl & Hn)|?]); [|done].
    exists i, prev, vi, buf. split; [done|]. split; [done|]. split; [done|].
    split.
    { intros ->. apply Hmiss. rewrite <- Hn.
      apply list_elem_of_fmap_2. by eapply list_elem_of_lookup_2. }
    split; [done|].
    intros cur Hcur Hsh.
    rewrite (execute_generic_reconcile c node graph d input_dict output_list)
      by done.
    rewrite Hout, (reconcile_app _ _ _ _ _ _ _ Hpre), Hafter. simpl.
    unfold bind at 1.
    rewrite (reconcile_output_store _ _ o (Some i) i buf cur); try done.
    by apply scan_list_ind_miss.
Qed.

(** The node lists [a], [b].  Where only [b] is declared among the outputs,
    the first round raises; where only [a] is, the buffer of [a] ends up
    under [b] as well. *)
Lemma generic_path_undeclared_output_witness :
  execute_generic (Fixtures.collaborators Fixtures.backend) Fixtures.split_node
    Fixtures.second_only_graph (Fixtures.empty_context Fixtures.second_only_graph)
  = (Raise (UnboundLocalError
              "local variable 'list_ind' referenced before assignment"),
     Fixtures.empty_context Fixtures.second_only_graph)
  /\ exists d',
       execute_generic (Fixtures.collaborators Fixtures.backend)
         Fixtures.split_node Fixtures.first_only_graph
         (Fixtures.empty_context Fixtures.first_only_graph)
       = (Ok tt, d')
       /\ dict_get "a" d' = Some (Fixtures.named_buffer (mk_ValueInfo "a" [1]))
       /\ dict_get "b" d' = Some (Fixtures.named_buffer (mk_ValueInfo "a" [1])).
Proof.
  split.
  - refine (proj1 (generic_path_undeclared_output
                     (Fixtures.collaborators Fixtures.backend) Fixtures.split_node
                     Fixtures.second_only_graph
                     (Fixtures.empty_context Fixtures.second_only_graph)
                     [("x", zeros [4])]
                     [Fixtures.named_buffer (mk_ValueInfo "b" [3])]
                     eq_refl eq_refl) "a" ["b"] eq_refl _).
    vm_compute. intros H. repeat (apply elem_of_cons in H as [H|H]; [done|]).
    by apply elem_of_nil in H.
  - destruct (proj2 (generic_path_undeclared_output
                       (Fixtures.collaborators Fixtures.backend)
                       Fixtures.split_node Fixtures.first_only_graph
                       (Fixtures.empty_context Fixtures.first_only_graph)
                       [("x", zeros [4])]
                       [Fixtures.named_buffer (mk_ValueInfo "a" [1])]
                       eq_refl eq_refl)
                ["a"] "b" []
                (dict_set "a" (Fixtures.named_buffer (mk_ValueInfo "a" [1]))
                   (Fixtures.empty_context Fixtures.first_only_graph))
                eq_refl)
      as (i & prev & vi & buf & _ & Hi & _ & _ & Hbuf & Hstore).
    + done.
    + vm_compute. intros H. repeat (apply elem_of_cons in H as [H|H]; [done|]).
      by apply elem_of_nil in H.
    + reflexivity.
    + destruct i as [|i]; [|done]. vm_compute in Hbuf. injection Hbuf as <-.
      eexists. split; [|split].
      * apply (Hstore (zeros [1])); reflexivity.
      * reflexivity.
      * reflexivity.
Defined.

(** C5: a node is routed through exactly three branches, tried in this
    order: the partition marker as operator tag selects the nested-graph
    path, whatever the domain; otherwise the domain [finn] selects the
    custom handler; otherwise the node goes through the generic backend. *)
Theorem execute_node_dispatch c depth node ctx graph :
  (Node.op_type node = "StreamingDataflowPartition" ->
   execute_node c depth node ctx graph
   = (let! model := lift_result (load_partition_model c node) in
      let! r := execute_onnx c depth model ctx true in
      let! other := deref r in
      at_loc ctx (update other)))
  /\ (Node.op_type node ≠ "StreamingDataflowPartition" ->
      Node.domain node = "finn" ->
      execute_node c depth node ctx graph
      = at_loc ctx (execute_custom_node c node graph))
  /\ (Node.op_type node ≠ "StreamingDataflowPartition" ->
      Node.domain node ≠ "finn" ->
      execute_node c depth node ctx graph
      = at_loc ctx (execute_generic c node graph)).
Proof.
  unfold execute_node, execute_node_with. split; [|split].
  - intros ->. done.
  - intros Hop ->. apply String.eqb_neq in Hop. by rewrite Hop.
  - intros Hop Hdom. apply String.eqb_neq in Hop, Hdom. by rewrite Hop, Hdom.
Qed.

Lemma execute_node_dispatch_witness :
  execute_node (Fixtures.collaborators Fixtures.backend) 1
    Fixtures.partition_node 0 Fixtures.partition_graph
  = (let! model := lift_result
                     (load_partition_model
                        (Fixtures.collaborators Fixtures.backend)
                        Fixtures.partition_node) in
     let! r := execute_onnx (Fixtures.collaborators Fixtures.backend) 1 model 0 true in
     let! other := deref r in
     at_loc 0 (update other))
  /\ execute_node (Fixtures.collaborators Fixtures.backend) 1
       Fixtures.split_node 0 Fixtures.split_graph
     = at_loc 0 (execute_generic (Fixtures.collaborators Fixtures.backend)
                   Fixtures.split_node Fixtures.split_graph).
Proof.
  split.
  - exact (proj1 (execute_node_dispatch (Fixtures.collaborators Fixtures.backend)
                    1 Fixtures.partition_node 0 Fixtures.partition_graph)
             eq_refl).
  - apply (proj2 (proj2 (execute_node_dispatch
                           (Fixtures.collaborators Fixtures.backend)
                           1 Fixtures.split_node 0 Fixtures.split_graph)));
      by intros [=].
Defined.

(** ** Binding the caller's inputs *)

Lemma at_loc_contains l k (h : heap) d :
  h !! l = Some d ->
  at_loc l (contains k) h = (Ok (bool_decide (is_Some (dict_get k d))), h).
Proof.
  intros H. rewrite (at_loc_run _ _ _ d) by done. simpl.
  by rewrite list_insert_id.
Qed.

Lemma at_loc_getitem l k (h : heap) d :
  h !! l = Some d ->
  at_loc l (getitem k) h
  = (match dict_get k d with Some v => Ok v | None => Raise (KeyError k) end, h).
Proof.
  intros H. rewrite (at_loc_run _ _ _ d) by done. unfold getitem.
  destruct (dict_get k d); simpl; by rewrite list_insert_id.
Qed.

(** One round of the binding loop, case by case. *)
Lemma bind_input_run input_dict ctx k (h : heap) din dctx :
  h !! input_dict = Some din -> h !! ctx = Some dctx ->
  bind_input input_dict ctx k h
  = match dict_get k dctx with
    | None => (Ok tt, h)
    | Some cur =>
        match dict_get k din with
        | None => (Raise (KeyError k), h)
        | Some given =>
            if decide (shape cur = shape given)
            then (Ok tt, <[ctx := dict_set k given dctx]> h)
            else (Raise (Exception
                           (input_shape_msg k (str_shape (shape cur))
                              (str_shape (shape given)))), h)
        end
    end.
Proof.
  intros Hin Hctx. unfold bind_input, bind at 1.
  rewrite (at_loc_contains _ _ _ dctx) by done.
  destruct (dict_get k dctx) as [cur|] eqn:Hcur.
  - rewrite bool_decide_eq_true_2 by eauto.
    unfold bind at 1. rewrite (at_loc_getitem _ _ _ dctx), Hcur by done.
    unfold bind at 1. rewrite (at_loc_getitem _ _ _ din) by done.
    destruct (dict_get k din) as [given|]; [|done].
    case_decide; [|done]. by rewrite (at_loc_run _ _ _ dctx).
  - rewrite bool_decide_eq_false_2; [done|]. by intros [? ?].
Qed.

(** C4: a binding whose shape differs from the pre-allocated one makes the
    call fail with a message that names the tensor and both shapes, but with
    the two shapes under each other's label: the caller binds [x] with shape
    (5,) where (4,) is declared, and is told that (4,) was found and (5,)
    expected. *)
Theorem input_shape_mismatch_report_swapped :
  execute_onnx (Fixtures.collaborators Fixtures.backend) 1
    (Fixtures.model_of Fixtures.split_graph None) 0 false
    [[("x", zeros [5])]]
  = (Raise (Exception
              "Shape mismatch for provided input x: found (4,) expected (5,) "),
     [[("x", zeros [5])]; Fixtures.empty_context Fixtures.split_graph]).
Proof. reflexivity. Qed.

Lemma execute_onnx_store_kept c depth model input_dict full (h : heap) l :
  l < length h ->
  snd (execute_onnx c depth model input_dict full h) !! l = h !! l.
Proof.
  intros Hl.
  destruct (frames_execute_onnx c depth (length h) (fun _ => False)
              model input_dict full h) as [_ Hsame]; [done|].
  apply Hsame; [done|tauto].
Qed.

(** C10: whatever a call of [execute_onnx] does, and whether it returns or
    raises, the dictionary of inputs it was given is afterwards what it was
    before; so is every other object that existed before the call. *)
Theorem execute_onnx_keeps_input_dict
    c depth model input_dict full (h : heap) din :
  h !! input_dict = Some din ->
  snd (execute_onnx c depth model input_dict full h) !! input_dict = Some din
  /\ forall l, l < length h ->
       snd (execute_onnx c depth model input_dict full h) !! l = h !! l.
Proof.
  intros Hin. split.
  - rewrite execute_onnx_store_kept; [done|]. by eapply lookup_lt_Some.
  - intros l Hl. by apply execute_onnx_store_kept.
Qed.

Lemma execute_onnx_keeps_input_dict_witness :
  snd (execute_onnx (Fixtures.collaborators Fixtures.backend) 1
         (Fixtures.model_of Fixtures.split_graph None) 0 false
         [[("x", zeros [4])]]) !! 0
  = Some [("x", zeros [4])].
Proof.
  exact (proj1 (execute_onnx_keeps_input_dict
                  (Fixtures.collaborators Fixtures.backend) 1
                  (Fixtures.model_of Fixtures.split_graph None) 0 false
                  [[("x", zeros [4])]] [("x", zeros [4])] eq_refl)).
Defined.

(** ** What the caller gets back *)

(** A call asking for the output subset is the call asking for the full
    context followed by the projection of lines 176-181. *)
Lemma execute_onnx_split c depth model input_dict full (h : heap) :
  execute_onnx c depth model input_dict full h
  = bind (execute_onnx c depth model input_dict true)
      (fun ctx => return_outputs (Model.graph model) ctx full) h.
Proof.
  destruct depth as [|depth]; simpl; [done|].
  unfold execute_onnx_body. destruct (negb _); [done|].
  unfold bind. simpl.
  destruct (bind_inputs _ _ _) as [[[]|e] h1]; [|done].
  destruct (run_exec_mode _ _ _ _ _) as [[[]|e] h2]; done.
Qed.

Lemma execute_onnx_full_returns_context c depth model input_dict (h : heap) r h1 :
  execute_onnx c depth model input_dict true h = (Ok r, h1) -> r = length h.
Proof.
  destruct depth as [|depth]; simpl; [done|].
  unfold execute_onnx_body. destruct (negb _); [done|].
  unfold bind. simpl.
  destruct (bind_inputs _ _ _) as [[[]|e] h']; [|done].
  destruct (run_exec_mode _ _ _ _ _) as [[[]|e] h2]; [|done].
  by intros [= <- _].
Qed.

(** The projection loop of lines 178-180 on a store where [ctx] holds the
    final context and [o] the dictionary being filled. *)
Lemma project_outputs_run (outs : list ValueInfo) ctx o (h h' : heap) final acc :
  ctx ≠ o -> h !! ctx = Some final -> h !! o = Some acc ->
  for_each outs
    (fun out_tensor =>
       let out_name := name out_tensor in
       let! v := at_loc ctx (getitem out_name) in
       at_loc o (setitem out_name v)) h = (Ok tt, h') ->
  exists acc', h' = <[o := acc']> h
    /\ (forall k, k ∈ dict_keys acc' <-> k ∈ dict_keys acc \/ k ∈ name <$> outs)
    /\ (forall k, k ∈ name <$> outs ->
          is_Some (dict_get k final) /\ dict_get k acc' = dict_get k final)
    /\ (forall k, k ∉ name <$> outs -> dict_get k acc' = dict_get k acc).
Proof.
  intros Hne. revert h acc.
  induction outs as [|vi outs IH]; intros h acc Hctx Ho; cbn [for_each].
  - intros [= <-]. exists acc. split; [by rewrite list_insert_id|].
    split; [|split]; intros k; rewrite ?fmap_nil, ?elem_of_nil; tauto.
  - unfold bind at 1. unfold bind at 1.
    rewrite (at_loc_getitem _ _ _ final) by done.
    destruct (dict_get (name vi) final) as [v|] eqn:Hv; [|done].
    rewrite (at_loc_run _ _ _ acc) by done.
    intros Hrest. simpl in Hrest. apply IH with (acc := dict_set (name vi) v acc) in Hrest
      as (acc' & -> & Hkeys & Hget & Hframe).
    + exists acc'. split; [by rewrite list_insert_insert_eq|].
      split; [|split].
      * intros k. rewrite Hkeys, dict_keys_set, fmap_cons, elem_of_cons. tauto.
      * intros k. rewrite fmap_cons, elem_of_cons.
        destruct (decide (k ∈ name <$> outs)) as [Hin|Hnin]; [auto|].
        intros [->|?]; [|done]. rewrite Hframe by done.
        rewrite dict_get_set_eq, Hv. eauto.
      * intros k. rewrite fmap_cons, not_elem_of_cons. intros [Hk Hnin].
        rewrite Hframe by done. by apply dict_get_set_ne.
    + by rewrite list_lookup_insert_ne.
    + apply list_lookup_insert_eq. by eapply lookup_lt_Some.
Qed.

(** C7: a call that returns hands back, when the full context was asked
    for, the execution context itself, and otherwise a new dictionary whose
    keys are exactly the names of the graph's declared outputs, each with
    the buffer the final execution context holds for that name. *)
Theorem execute_onnx_returns_outputs_or_context
    c depth model input_dict full (h h' : heap) r :
  execute_onnx c depth model input_dict full h = (Ok r, h') ->
  exists h1 final,
    execute_onnx c depth model input_dict true h = (Ok (length h), h1)
    /\ h1 !! length h = Some final
    /\ h' !! length h = Some final
    /\ if full then r = length h /\ h' = h1
       else exists out,
         r = length h1 /\ h' = h1 ++ [out]
         /\ (forall k, k ∈ dict_keys out
                       <-> k ∈ name <$> Graph.output (Model.graph model))
         /\ (forall k, k ∈ name <$> Graph.output (Model.graph model) ->
               is_Some (dict_get k final)
               /\ dict_get k out = dict_get k final).
Proof.
  rewrite execute_onnx_split. unfold bind at 1.
  destruct (execute_onnx c depth model input_dict true h) as [[ctx|e] h1] eqn:E;
    [|done].
  pose proof (execute_onnx_full_returns_context _ _ _ _ _ _ _ E) as ->.
  pose proof (execute_onnx_fresh _ _ _ _ _ _ _ _ E) as [_ Hlt].
  destruct (lookup_lt_is_Some_2 h1 (length h) Hlt) as [final Hfinal].
  unfold return_outputs. destruct full.
  - intros [= <- <-]. exists h1, final. done.
  - unfold bind at 1. simpl. unfold bind at 1.
    match goal with |- context [for_each ?l ?b ?hh] =>
      destruct (for_each l b hh) as [[[]|e] h2] eqn:Hloop; [|done] end.
    intros [= <- <-].
    apply (project_outputs_run _ _ _ _ _ final []) in Hloop
      as (out & -> & Hkeys & Hget & _).
    + exists h1, final. split; [done|]. split; [done|].
      assert (<[length h1:=out]> (h1 ++ [[]]) = h1 ++ [out]) as ->.
      { replace (length h1) with (length h1 + 0) at 1 by lia.
        by rewrite insert_app_r. }
      split; [by apply lookup_app_l_Some|].
      exists out. split; [done|]. split; [done|]. split; [|done].
      intros k. rewrite Hkeys. simpl. rewrite elem_of_nil. tauto.
    + lia.
    + by apply lookup_app_l_Some.
    + replace (length h1) with (length h1 + 0) at 1 by lia.
      by rewrite lookup_app_r, Nat.add_comm, Nat.add_sub by lia.
Qed.

(** The graph declares the outputs [b] and [a]; the input [x] and the
    unknown name [q] are bound. *)
Lemma execute_onnx_returns_outputs_or_context_witness :
  exists h1 final out,
    execute_onnx (Fixtures.collaborators Fixtures.backend) 1
      (Fixtures.model_of Fixtures.split_graph None) 0 true
      [[("x", zeros [4]); ("q", zeros [1])]] = (Ok 1, h1)
    /\ h1 !! 1 = Some final
    /\ dict_keys out = ["b"; "a"]
    /\ dict_get "a" out = dict_get "a" final.
Proof.
  destruct (execute_onnx_returns_outputs_or_context
              (Fixtures.collaborators Fixtures.backend) 1
              (Fixtures.model_of Fixtures.split_graph None) 0 false
              [[("x", zeros [4]); ("q", zeros [1])]]
              (snd (execute_onnx (Fixtures.collaborators Fixtures.backend) 1
                      (Fixtures.model_of Fixtures.split_graph None) 0 false
                      [[("x", zeros [4]); ("q", zeros [1])]]))
              2 eq_refl)
    as (h1 & final & Hfull & Hfinal & _ & out & _ & Hh' & _ & Hget).
  exists h1, final, out. split; [exact Hfull|]. split; [exact Hfinal|].
  split.
  - vm_compute in Hfull. injection Hfull as <-.
    vm_compute in Hh'. by injection Hh' as <-.
  - apply Hget. vm_compute. repeat constructor.
Defined.

(** ** The execution mode *)

(** C6, as the code has it: with the shapes specified and the inputs bound,
    the call reads the flag once and runs exactly one strategy on the
    execution context before it builds its result.  Unset or empty: the
    nodes one by one in the order of the graph.  [remote_pynq]: one call of
    the remote collaborator.  [rtlsim]: one call of the simulation
    collaborator.  Any other value: the call raises an exception whose
    message is one fixed text, the same whatever the value found is. *)
Theorem exec_mode_selects_strategy
    c depth model input_dict full (h h1 : heap) :
  Model.check_all_tensor_shapes_specified model = true ->
  bind_inputs input_dict (length h) (h ++ [Model.make_empty_exec_context model])
  = (Ok tt, h1) ->
  let mode := Model.get_metadata_prop model "exec_mode" in
  let graph := Model.graph model in
  let ctx := length h in
  exists strategy : M unit,
    execute_onnx c (S depth) model input_dict full h
    = (strategy ;! return_outputs graph ctx full) h1
    /\ (mode = None \/ mode = Some "" ->
        strategy
        = for_each (Graph.node graph)
            (fun node => execute_node c depth node ctx graph))
    /\ (mode = Some "remote_pynq" ->
        strategy = at_loc ctx (remote_exec c model))
    /\ (mode = Some "rtlsim" ->
        strategy = at_loc ctx (rtlsim_exec c model))
    /\ (forall v, mode = Some v ->
          v ≠ "" -> v ≠ "remote_pynq" -> v ≠ "rtlsim" ->
          strategy = raise (Exception unknown_exec_mode_msg)
          /\ execute_onnx c (S depth) model input_dict full h
             = (Raise (Exception unknown_exec_mode_msg), h1)).
Proof.
  intros Hcheck Hbind. cbv zeta.
  exists (run_exec_mode c (execute_node c depth) model (length h)).
  assert (Hrun : execute_onnx c (S depth) model input_dict full h
                 = (run_exec_mode c (execute_node c depth) model (length h)
                    ;! return_outputs (Model.graph model) (length h) full) h1).
  { simpl. unfold execute_onnx_body. rewrite Hcheck. simpl.
    unfold bind at 1. simpl. unfold bind at 1. by rewrite Hbind. }
  split; [done|]. unfold run_exec_mode.
  split; [|split; [|split]].
  - intros [Hm|Hm]; rewrite Hm; reflexivity.
  - intros Hm. rewrite Hm. reflexivity.
  - intros Hm. rewrite Hm. reflexivity.
  - intros v Hm Hv1 Hv2 Hv3.
    assert (Hraise : run_exec_mode c (execute_node c depth) model (length h)
                     = raise (Exception unknown_exec_mode_msg)).
    { unfold run_exec_mode. rewrite Hm.
      rewrite !bool_decide_eq_false_2 by congruence. done. }
    split.
    + exact Hraise.
    + rewrite Hrun, Hraise. done.
Qed.

Lemma exec_mode_selects_strategy_witness :
  execute_onnx (Fixtures.collaborators Fixtures.backend) 1
    (Fixtures.model_of Fixtures.split_graph (Some "cppsim")) 0 false [[]]
  = (Raise (Exception unknown_exec_mode_msg),
     [[]; Fixtures.empty_context Fixtures.split_graph]).
Proof.
  destruct (exec_mode_selects_strategy
              (Fixtures.collaborators Fixtures.backend) 0
              (Fixtures.model_of Fixtures.split_graph (Some "cppsim")) 0 false
              [[]] [[]; Fixtures.empty_context Fixtures.split_graph]
              eq_refl eq_refl)
    as (strategy & _ & _ & _ & _ & Hother).
  apply (Hother "cppsim"); done.
Defined.

(** C6, as stated, fails: the flag holds [cppsim], and the message of the
    exception does not contain that value; a different unknown value gives
    the very same exception. *)
Lemma unknown_exec_mode_value_not_reported :
  exists msg h',
    execute_onnx (Fixtures.collaborators Fixtures.backend) 1
      (Fixtures.model_of Fixtures.split_graph (Some "cppsim")) 0 false [[]]
    = (Raise (Exception msg), h')
    /\ mentions "cppsim" msg = false
    /\ execute_onnx (Fixtures.collaborators Fixtures.backend) 1
         (Fixtures.model_of Fixtures.split_graph (Some "hls")) 0 false [[]]
       = (Raise (Exception msg), h').
Proof.
  exists unknown_exec_mode_msg, [[]; Fixtures.empty_context Fixtures.split_graph].
  split; [reflexivity|]. split; [vm_compute; reflexivity | reflexivity].
Qed.

(** ** Partition nodes *)

(** C2, as the code has it: a partition node that returns has run the nested
    graph in a context of its own, a new object, while the caller's context
    stayed as it was; afterwards the caller's context is its former self
    updated with the whole of the nested context.  So a caller entry changes
    only if the nested context has its name, every name added is a key of
    the nested context, every key of the nested context ends up with the
    nested buffer (the keys of the nested context being distinct, as those
    of a dict are), and no other object that existed before changes. *)
Theorem partition_merges_nested_context
    c depth node ctx graph (h h' : heap) d :
  Node.op_type node = "StreamingDataflowPartition" ->
  h !! ctx = Some d ->
  execute_node c depth node ctx graph h = (Ok tt, h') ->
  exists model r h1 other,
    load_partition_model c node = Ok model
    /\ execute_onnx c depth model ctx true h = (Ok r, h1)
    /\ length h <= r
    /\ h1 !! r = Some other
    /\ h1 !! ctx = Some d
    /\ h' = <[ctx := dict_update d other]> h1
    /\ (forall k, k ∉ dict_keys other ->
          dict_get k (dict_update d other) = dict_get k d)
    /\ (forall k, k ∈ dict_keys (dict_update d other) ->
          k ∈ dict_keys d \/ k ∈ dict_keys other)
    /\ (NoDup (dict_keys other) ->
        forall k v, dict_get k other = Some v ->
          dict_get k (dict_update d other) = Some v)
    /\ (forall l, l < length h -> l ≠ ctx -> h' !! l = h !! l).
Proof.
  intros Hop Hctx. unfold execute_node, execute_node_with.
  rewrite Hop. simpl. unfold bind at 1, lift_result at 1.
  destruct (load_partition_model c node) as [model|e]; [|done].
  unfold bind at 1.
  destruct (execute_onnx c depth model ctx true h) as [[r|e] h1] eqn:E; [|done].
  pose proof (execute_onnx_fresh _ _ _ _ _ _ _ _ E) as [Hr Hlt].
  destruct (frames_execute_onnx c depth (length h) (fun _ => False)
              model ctx true h) as [_ Hsame]; [done|].
  rewrite E in Hsame. simpl in Hsame.
  assert (Hctx1 : h1 !! ctx = Some d).
  { rewrite Hsame; [done| |tauto]. by eapply lookup_lt_Some. }
  destruct (lookup_lt_is_Some_2 h1 r Hlt) as [other Hother].
  unfold bind at 1, deref at 1. rewrite Hother.
  rewrite (at_loc_run _ _ _ d) by done. simpl. intros [= <-].
  exists model, r, h1, other.
  repeat (split; [done|]). split; [|split; [|split]].
  - intros k Hk. apply dict_update_get_None. by apply dict_get_None_keys.
  - intros k. by rewrite dict_update_keys.
  - intros Hnd k v. by apply dict_update_get_Some.
  - intros l Hl Hne. rewrite list_lookup_insert_ne by done.
    apply Hsame; [done|tauto].
Qed.

Lemma partition_merges_nested_context_witness :
  exists other,
    execute_onnx (Fixtures.collaborators Fixtures.backend) 1
      (Fixtures.model_of Fixtures.nested_graph None) 0 true [[("x", zeros [4])]]
    = (Ok 1, [[("x", zeros [4])]; other])
    /\ (forall k, k ∉ dict_keys other ->
          dict_get k (dict_update [("x", zeros [4])] other)
          = dict_get k [("x", zeros [4])]).
Proof.
  destruct (partition_merges_nested_context
              (Fixtures.collaborators Fixtures.backend) 1
              Fixtures.partition_node 0 Fixtures.partition_graph
              [[("x", zeros [4])]]
              [[("x", zeros [4]); ("a", zeros [2])]; [("a", zeros [2])]]
              [("x", zeros [4])] eq_refl eq_refl eq_refl)
    as (model & r & h1 & other & Hload & Hrun & _ & Hother & _ & _ & Hframe & _).
  injection Hload as <-.
  vm_compute in Hrun. injection Hrun as <- <-.
  vm_compute in Hother. injection Hother as <-.
  exists [("a", zeros [2])]. split; [reflexivity|]. exact Hframe.
Defined.

(** C2, as stated, fails in both halves.  A name is added that the
    partition did not produce: the nested graph declares an input [a], has
    no node and no output, and the partition node declares no output, so the
    partition produces nothing; the caller's context has no [a] before the
    partition node and has one after it.  An entry of the caller is changed
    under a name the partition did not produce: the nested graph declares no
    tensor and its one node is a partition node without outputs, whose own
    nested graph declares [a]; the caller's [a], of shape (5,), is replaced
    by a zero buffer of shape (2,). *)
Lemma partition_changes_unproduced_names :
  (exists nested before after h',
     load_partition_model (Fixtures.collaborators Fixtures.backend)
       Fixtures.partition_node = Ok nested
     /\ execute_node (Fixtures.collaborators Fixtures.backend) 1
          Fixtures.partition_node 0 Fixtures.partition_graph [before]
        = (Ok tt, after :: h')
     /\ partition_produced Fixtures.partition_node nested = []
     /\ dict_get "a" before = None
     /\ dict_get "a" after = Some (zeros [2]))
  /\ (exists nested before after h',
        load_partition_model EdgeFixtures.two_level
          EdgeFixtures.outer_partition_node = Ok nested
        /\ execute_node EdgeFixtures.two_level 2
             EdgeFixtures.outer_partition_node 0 Fixtures.partition_graph
             [before]
           = (Ok tt, after :: h')
        /\ partition_produced EdgeFixtures.outer_partition_node nested = []
        /\ dict_get "a" before = Some {| shape := [5]; data := [7%Z] |}
        /\ dict_get "a" after = Some (zeros [2])).
Proof.
  split.
  - exists (Fixtures.model_of Fixtures.nested_graph None),
      [("x", zeros [4])], [("x", zeros [4]); ("a", zeros [2])],
      [[("a", zeros [2])]].
    repeat split; reflexivity.
  - exists (Fixtures.model_of EdgeFixtures.middle_graph None),
      [("a", {| shape := [5]; data := [7%Z] |})], [("a", zeros [2])],
      [[("a", zeros [2])]; [("a", zeros [2])]].
    repeat split; reflexivity.
Qed.

(** ** Computations that do not look at one object of the store *)

Lemma ignores_ret {A} x (a : A) : ignores x (ret a).
Proof. by intros h d' Hx. Qed.

Lemma ignores_raise {A} x e : ignores (A:=A) x (raise e).
Proof. by intros h d' Hx. Qed.

Lemma ignores_lift_result {A} x (r : result A) : ignores x (lift_result r).
Proof. by intros h d' Hx. Qed.

Lemma ignores_bind_val {A B} x (Q : A -> Prop) (m : M A) (k : A -> M B) :
  ignores x m ->
  (forall h a h', x < length h -> m h = (Ok a, h') -> Q a) ->
  (forall a, Q a -> ignores x (k a)) ->
  ignores x (bind m k).
Proof.
  intros Hm HQ Hk h d' Hx. unfold bind.
  destruct (Hm h d' Hx) as [-> Hlen].
  destruct (m h) as [[a|e] h1] eqn:E; simpl in *; [|done].
  destruct (Hk a (HQ h a h1 Hx E) h1 d') as [-> Hlen']; [lia|].
  split; [done|lia].
Qed.

Lemma ignores_bind {A B} x (m : M A) (k : A -> M B) :
  ignores x m -> (forall a, ignores x (k a)) -> ignores x (bind m k).
Proof. intros Hm Hk. apply (ignores_bind_val x (fun _ => True)); auto. Qed.

Lemma ignores_for_each {A} x (l : list A) (body : A -> M unit) :
  (forall a, ignores x (body a)) -> ignores x (for_each l body).
Proof.
  intros Hb. induction l as [|a l IH]; simpl.
  - apply ignores_ret.
  - apply ignores_bind; auto.
Qed.

Lemma ignores_at_loc {A} x l (f : D A) : l ≠ x -> ignores x (at_loc l f).
Proof.
  intros Hne h d' Hx. unfold at_loc. rewrite list_lookup_insert_ne by done.
  destruct (h !! l) as [d|]; [|done]. destruct (f d) as [r d2]. simpl.
  rewrite length_insert. split; [|done]. f_equal.
  by apply list_insert_insert_ne.
Qed.

Lemma ignores_deref x l : l ≠ x -> ignores x (deref l).
Proof.
  intros Hne h d' Hx. unfold deref. rewrite list_lookup_insert_ne by done.
  by destruct (h !! l).
Qed.

Lemma ignores_new_dict x d : ignores x (new_dict d).
Proof.
  intros h d' Hx. unfold new_dict. simpl.
  rewrite length_insert, length_app, insert_app_l by done. simpl.
  split; [done|lia].
Qed.

Lemma new_dict_fresh x d (h h' : heap) a :
  x < length h -> new_dict d h = (Ok a, h') -> a ≠ x.
Proof. intros Hx [= <- _]. lia. Qed.

Lemma ignores_bind_input x input_dict ctx k :
  input_dict ≠ x -> ctx ≠ x -> ignores x (bind_input input_dict ctx k).
Proof.
  intros Hin Hctx. unfold bind_input.
  apply ignores_bind; [by apply ignores_at_loc|]. intros [|]; [|apply ignores_ret].
  apply ignores_bind; [by apply ignores_at_loc|]. intros cur.
  apply ignores_bind; [by apply ignores_at_loc|]. intros given.
  case_decide; [by apply ignores_at_loc | apply ignores_raise].
Qed.

Lemma ignores_return_outputs x graph ctx full :
  ctx ≠ x -> ignores x (return_outputs graph ctx full).
Proof.
  intros Hctx. unfold return_outputs. destruct full; [apply ignores_ret|].
  apply (ignores_bind_val x (fun o => o ≠ x)); [apply ignores_new_dict| |].
  - intros h a h' Hx. by apply new_dict_fresh.
  - intros o Ho. apply ignores_bind; [|intros; apply ignores_ret].
    apply ignores_for_each. intros vi.
    apply ignores_bind; [by apply ignores_at_loc|]. intros v.
    by apply ignores_at_loc.
Qed.

Lemma ignores_run_exec_mode c exec x model ctx :
  (forall node graph, ignores x (exec node ctx graph)) ->
  ctx ≠ x ->
  ignores x (run_exec_mode c exec model ctx).
Proof.
  intros Hexec Hctx. unfold run_exec_mode.
  destruct (_ || _); [apply ignores_for_each; intros; apply Hexec|].
  repeat case_bool_decide; try by apply ignores_at_loc. apply ignores_raise.
Qed.

Lemma ignores_execute_onnx c depth x model input_dict full :
  input_dict ≠ x -> ignores x (execute_onnx c depth model input_dict full).
Proof.
  revert model input_dict full.
  induction depth as [|depth IH]; intros model input_dict full Hin; simpl.
  - apply ignores_raise.
  - unfold execute_onnx_body.
    destruct (negb _); [apply ignores_raise|].
    apply (ignores_bind_val x (fun o => o ≠ x)); [apply ignores_new_dict| |].
    + intros h a h' Hx. by apply new_dict_fresh.
    + intros ctx Hctx.
      apply ignores_bind.
      { unfold bind_inputs. apply ignores_bind; [by apply ignores_at_loc|].
        intros names. apply ignores_for_each. intros k.
        by apply ignores_bind_input. }
      intros _. apply ignores_bind; [|intros _; by apply ignores_return_outputs].
      apply ignores_run_exec_mode; [|done].
      intros node graph. unfold execute_node_with.
      destruct (String.eqb (Node.op_type node) _).
      * apply ignores_bind; [apply ignores_lift_result|]. intros nested.
        apply (ignores_bind_val x (fun r => r ≠ x)); [by apply IH| |].
        -- intros h r h' Hx E. apply execute_onnx_fresh in E. lia.
        -- intros r Hr. apply ignores_bind; [by apply ignores_deref|].
           intros other. by apply ignores_at_loc.
      * destruct (String.eqb (Node.domain node) _); by apply ignores_at_loc.
Qed.

(** ** A binding for a name the context does not have *)

(** Sequencing two computations each of which carries a change at [x]
    through unchanged. *)
Lemma bind_transport {A B} x d' (m : M A) (k : A -> M B) (h : heap) :
  m (<[x := d']> h) = (fst (m h), <[x := d']> (snd (m h))) ->
  (forall a h1, m h = (Ok a, h1) ->
     k a (<[x := d']> h1) = (fst (k a h1), <[x := d']> (snd (k a h1)))) ->
  bind m k (<[x := d']> h)
  = (fst (bind m k h), <[x := d']> (snd (bind m k h))).
Proof.
  intros Hm Hk. unfold bind. rewrite Hm.
  destruct (m h) as [[a|e] h1]; simpl; [|done]. by apply Hk.
Qed.

Lemma dict_keys_without k d :
  dict_keys (dict_without k d)
  = List.filter (fun n => negb (String.eqb k n)) (dict_keys d).
Proof.
  induction d as [|[k' v] d IH]; simpl; [done|].
  destruct (String.eqb k k'); simpl; by rewrite IH.
Qed.

Lemma dict_get_without k n d :
  n ≠ k -> dict_get n (dict_without k d) = dict_get n d.
Proof.
  intros Hne. induction d as [|[k' v] d IH]; simpl; [done|].
  destruct (String.eqb k k') eqn:E; simpl.
  - apply String.eqb_eq in E. subst k'.
    apply String.eqb_neq in Hne. by rewrite Hne.
  - by rewrite IH.
Qed.

(** The binding loop run with and without the binding for [k]. *)
Lemma for_each_bind_input_without input_dict ctx k din names :
  input_dict ≠ ctx ->
  forall (h : heap) dctx,
    h !! input_dict = Some din -> h !! ctx = Some dctx ->
    k ∉ dict_keys dctx ->
    for_each (List.filter (fun n => negb (String.eqb k n)) names)
      (bind_input input_dict ctx) (<[input_dict := dict_without k din]> h)
    = (fst (for_each names (bind_input input_dict ctx) h),
       <[input_dict := dict_without k din]>
         (snd (for_each names (bind_input input_dict ctx) h))).
Proof.
  intros Hne. induction names as [|n names IH]; intros h dctx Hin Hctx Hk;
    [done|].
  assert (Hlt : input_dict < length h) by by eapply lookup_lt_Some.
  cbn [List.filter for_each]. unfold bind at 1 2.
  rewrite (bind_input_run _ _ n h din dctx) by done.
  destruct (String.eqb k n) eqn:E; cbn [negb].
  - apply String.eqb_eq in E. subst n.
    rewrite (proj2 (dict_get_None_keys k dctx) Hk).
    by apply IH with (dctx := dctx).
  - apply String.eqb_neq in E. cbn [for_each]. unfold bind at 1.
    rewrite (bind_input_run _ _ n _ (dict_without k din) dctx).
    2:{ by apply list_lookup_insert_eq. }
    2:{ by rewrite list_lookup_insert_ne. }
    rewrite dict_get_without by done.
    destruct (dict_get n dctx) as [cur|] eqn:Hcur.
    + destruct (dict_get n din) as [given|]; [|done].
      case_decide; [|done].
      rewrite list_insert_insert_ne by done.
      apply IH with (dctx := dict_set n given dctx).
      * by rewrite list_lookup_insert_ne.
      * apply list_lookup_insert_eq. by eapply lookup_lt_Some.
      * rewrite dict_keys_set_present; [done|].
        by eapply dict_get_Some_keys.
    + by apply IH with (dctx := dctx).
Qed.

Lemma bind_inputs_without input_dict ctx k (h : heap) din dctx :
  input_dict ≠ ctx ->
  h !! input_dict = Some din -> h !! ctx = Some dctx ->
  k ∉ dict_keys dctx ->
  bind_inputs input_dict ctx (<[input_dict := dict_without k din]> h)
  = (fst (bind_inputs input_dict ctx h),
     <[input_dict := dict_without k din]> (snd (bind_inputs input_dict ctx h))).
Proof.
  intros Hne Hin Hctx Hk.
  assert (Hlt : input_dict < length h) by by eapply lookup_lt_Some.
  unfold bind_inputs, bind.
  rewrite (at_loc_run _ _ h din) by done.
  rewrite (at_loc_run _ _ _ (dict_without k din))
    by by apply list_lookup_insert_eq.
  cbn [keys fst snd].
  rewrite list_insert_insert_eq, (list_insert_id h input_dict din Hin).
  rewrite dict_keys_without.
  rewrite (for_each_bind_input_without _ _ _ _ _ Hne h dctx) by done.
  by destruct (for_each (dict_keys din) _ h) as [[[]|e] h1].
Qed.

(** C8: a binding whose name the execution context does not have is passed
    over.  The call given the binding and the call not given it end the
    same way, with the same return value or the same exception, and leave
    the same store but for the caller's dictionary itself; the execution
    context, in particular, is the same object with the same keys and
    buffers. *)
Theorem absent_binding_is_ignored
    c depth model input_dict full (h : heap) din k :
  h !! input_dict = Some din ->
  k ∉ dict_keys (Model.make_empty_exec_context model) ->
  execute_onnx c depth model input_dict full h
  = (fst (execute_onnx c depth model input_dict full
            (<[input_dict := dict_without k din]> h)),
     <[input_dict := din]>
       (snd (execute_onnx c depth model input_dict full
               (<[input_dict := dict_without k din]> h))))
  /\ forall l, l ≠ input_dict ->
       snd (execute_onnx c depth model input_dict full h) !! l
       = snd (execute_onnx c depth model input_dict full
                (<[input_dict := dict_without k din]> h)) !! l.
Proof.
  intros Hin Hk.
  assert (Hlt : input_dict < length h) by by eapply lookup_lt_Some.
  assert (Heq : execute_onnx c depth model input_dict full
                  (<[input_dict := dict_without k din]> h)
                = (fst (execute_onnx c depth model input_dict full h),
                   <[input_dict := dict_without k din]>
                     (snd (execute_onnx c depth model input_dict full h)))).
  { destruct depth as [|depth]; simpl; [done|].
    unfold execute_onnx_body. destruct (negb _); [done|].
    apply bind_transport; [by apply ignores_new_dict|].
    intros ctx h0 [= <- <-].
    apply bind_transport.
    - apply (bind_inputs_without _ _ k _ din
               (Model.make_empty_exec_context model)); try done.
      + lia.
      + by apply lookup_app_l_Some.
      + replace (length h) with (length h + 0) at 1 by lia.
        by rewrite lookup_app_r, Nat.add_comm, Nat.add_sub by lia.
    - intros [] h1 Hbind.
      pose proof (frames_bind_inputs 0 (fun _ => True) input_dict (length h)
                    (fun _ => I) (h ++ [Model.make_empty_exec_context model]))
        as [Hlen _]; [lia|].
      rewrite Hbind, length_app in Hlen. simpl in Hlen.
      match goal with |- ?m (<[_ := _]> h1) = _ =>
        assert (Hign : ignores input_dict m); [|by apply Hign; lia] end.
      apply ignores_bind.
      + apply ignores_run_exec_mode; [|lia].
        intros node graph. unfold execute_node_with.
        destruct (String.eqb (Node.op_type node) _).
        * apply ignores_bind; [apply ignores_lift_result|]. intros nested.
          apply (ignores_bind_val input_dict (fun r => r ≠ input_dict));
            [apply ignores_execute_onnx; lia| |].
          -- intros h0 r h' Hx E. apply execute_onnx_fresh in E. lia.
          -- intros r Hr. apply ignores_bind; [by apply ignores_deref|].
             intros other. apply ignores_at_loc. lia.
        * destruct (String.eqb (Node.domain node) _);
            apply ignores_at_loc; lia.
      + intros _. apply ignores_return_outputs. lia. }
  pose proof (execute_onnx_store_kept c depth model input_dict full h
                input_dict Hlt) as Hkeep.
  rewrite Heq. cbn [fst snd]. split.
  - rewrite list_insert_insert_eq, list_insert_id by (by rewrite Hkeep).
    by destruct (execute_onnx c depth model input_dict full h).
  - intros l Hl. by rewrite list_lookup_insert_ne.
Qed.

(** The caller binds [x], which the graph declares, and [q], which it does
    not: the call ends as the call that binds [x] alone. *)
Lemma absent_binding_is_ignored_witness :
  execute_onnx (Fixtures.collaborators Fixtures.backend) 1
    (Fixtures.model_of Fixtures.split_graph None) 0 false
    [[("x", zeros [4]); ("q", zeros [1])]]
  = (fst (execute_onnx (Fixtures.collaborators Fixtures.backend) 1
            (Fixtures.model_of Fixtures.split_graph None) 0 false
            [[("x", zeros [4])]]),
     <[0 := [("x", zeros [4]); ("q", zeros [1])]]>
       (snd (execute_onnx (Fixtures.collaborators Fixtures.backend) 1
               (Fixtures.model_of Fixtures.split_graph None) 0 false
               [[("x", zeros [4])]]))).
Proof.
  refine (proj1 (absent_binding_is_ignored
                   (Fixtures.collaborators Fixtures.backend) 1
                   (Fixtures.model_of Fixtures.split_graph None) 0 false
                   [[("x", zeros [4]); ("q", zeros [1])]]
                   [("x", zeros [4]); ("q", zeros [1])] "q" eq_refl _)).
  vm_compute. intros H. repeat (apply elem_of_cons in H as [H|H]; [done|]).
  by apply elem_of_nil in H.
Defined.

(** * Further properties *)

(** ** The generic-backend path: failures and what it keeps *)

Lemma collect_inputs_missing pre inp rest acc d :
  (forall p, p ∈ pre -> is_Some (dict_get p d)) ->
  dict_get inp d = None ->
  collect_inputs (pre ++ inp :: rest) acc d = (Raise (KeyError inp), d).
Proof.
  revert acc. induction pre as [|p pre IH]; intros acc Hpre Hinp; simpl.
  - unfold bind, getitem. by rewrite Hinp.
  - destruct (Hpre p) as [v Hv]; [apply list_elem_of_here|].
    unfold bind, getitem. rewrite Hv. apply IH; [|done].
    intros q Hq. by apply Hpre, list_elem_of_further.
Qed.

(** X1: in the generic path, a node input the context has no entry for
    makes the call raise [KeyError] for the first such input, in the order
    the node lists its inputs; the backend plays no part and the store is
    left as it was. *)
Theorem generic_path_missing_input
    c depth node ctx graph (h : heap) d pre inp rest :
  Node.op_type node ≠ "StreamingDataflowPartition" ->
  Node.domain node ≠ "finn" ->
  h !! ctx = Some d ->
  Node.input node = pre ++ inp :: rest ->
  (forall p, p ∈ pre -> is_Some (dict_get p d)) ->
  dict_get inp d = None ->
  execute_node c depth node ctx graph h = (Raise (KeyError inp), h).
Proof.
  intros Hop Hdom Hctx Hin Hpre Hinp.
  rewrite execute_node_generic by done.
  rewrite (at_loc_run _ _ _ d) by done.
  assert (execute_generic c node graph d = (Raise (KeyError inp), d)) as ->.
  { unfold execute_generic, bind at 1.
    by rewrite Hin, collect_inputs_missing. }
  simpl. by rewrite list_insert_id.
Qed.

Lemma generic_path_missing_input_witness :
  execute_node (Fixtures.collaborators Fixtures.backend) 1 Fixtures.split_node 0
    Fixtures.split_graph [[("a", zeros [1]); ("b", zeros [3])]]
  = (Raise (KeyError "x"), [[("a", zeros [1]); ("b", zeros [3])]]).
Proof.
  apply (generic_path_missing_input _ _ _ _ _ _
           [("a", zeros [1]); ("b", zeros [3])] [] "x" []); try done.
  intros p Hp. by apply elem_of_nil in Hp.
Defined.

(** X2: in the generic path, a failure of the backend is raised to the
    caller as it is, and the store is left as it was. *)
Theorem generic_path_backend_failure
    c depth node ctx graph (h : heap) d input_dict e :
  Node.op_type node ≠ "StreamingDataflowPartition" ->
  Node.domain node ≠ "finn" ->
  h !! ctx = Some d ->
  fst (collect_inputs (Node.input node) [] d) = Ok input_dict ->
  sess_run c node (node_inputs_of node graph) (node_outputs_of node graph)
    input_dict = Raise e ->
  execute_node c depth node ctx graph h = (Raise e, h).
Proof.
  intros Hop Hdom Hctx Hin Hrun.
  rewrite execute_node_generic by done.
  rewrite (at_loc_run _ _ _ d) by done.
  assert (execute_generic c node graph d = (Raise e, d)) as ->.
  { unfold execute_generic, bind at 1.
    pose proof (collect_inputs_state (Node.input node) [] d) as Hst.
    destruct (collect_inputs (Node.input node) [] d) as [r d0].
    simpl in Hin, Hst. subst r d0.
    unfold bind, lift_result. by rewrite Hrun. }
  simpl. by rewrite list_insert_id.
Qed.

Lemma generic_path_backend_failure_witness :
  execute_node (Fixtures.collaborators MoreFixtures.failing_backend) 1
    Fixtures.split_node 0 Fixtures.split_graph
    [Fixtures.empty_context Fixtures.split_graph]
  = (Raise (CollaboratorError "backend failure"),
     [Fixtures.empty_context Fixtures.split_graph]).
Proof.
  by apply (generic_path_backend_failure _ _ _ _ _ _
              (Fixtures.empty_context Fixtures.split_graph) [("x", zeros [4])]).
Defined.

(** A scan ends on the last declaration of the name. *)
Lemma scan_list_ind_last outp no i li j :
  last_declared no outp j -> scan_list_ind outp no i li = Some (i + j).
Proof.
  intros (vj & Hj & Hn & Hlast). revert i li j Hj Hlast.
  induction no as [|vi no IH]; intros i li j Hj Hlast; [done|].
  simpl. destruct j as [|j].
  - simpl in Hj. injection Hj as ->. rewrite Hn, String.eqb_refl.
    rewrite scan_list_ind_miss; [f_equal; lia|].
    intros Hin. apply list_elem_of_fmap in Hin as (v & Hv & Hin).
    apply list_elem_of_lookup in Hin as [j' Hj'].
    by apply (Hlast (S j') v); [lia| |].
  - rewrite (IH (S i) _ j); [f_equal; lia|done|].
    intros j' vj' Hlt Hj'. apply (Hlast (S j') vj'); [lia|done].
Qed.

(** The rounds before a given output, when they all returned, and then the
    round of an output with a declaration. *)
Lemma execute_generic_at c node graph d input_dict ol pre o rest d1 j :
  fst (collect_inputs (Node.input node) [] d) = Ok input_dict ->
  sess_run c node (node_inputs_of node graph) (node_outputs_of node graph)
    input_dict = Ok ol ->
  Node.output node = pre ++ o :: rest ->
  reconcile (node_outputs_of node graph) ol pre None d = (Ok tt, d1) ->
  last_declared (node_outputs_of node graph) o j ->
  execute_generic c node graph d
  = (let! li := reconcile_output (node_outputs_of node graph) ol o (Some j) in
     reconcile (node_outputs_of node graph) ol rest li) d1
  /\ scan_list_ind o (node_outputs_of node graph) 0 (Some j) = Some j.
Proof.
  intros Hin Hrun Hout Hpre Hlast.
  pose proof (scan_list_ind_last o _ 0 (Some j) j Hlast) as Hs. simpl in Hs.
  split; [|done].
  rewrite (execute_generic_reconcile c node graph d input_dict ol) by done.
  rewrite Hout, (reconcile_app _ _ _ _ _ _ _ Hpre). simpl.
  unfold bind, reconcile_output.
  rewrite (scan_list_ind_last o _ 0 _ j Hlast). simpl. by rewrite Hs.
Qed.

(** X3: in the generic path, when the backend returns fewer buffers than
    the position of an output's last declaration in the single-node model,
    the round of that output raises [IndexError]; what the earlier rounds
    stored stays in the context. *)
Theorem generic_path_short_result
    c node graph d input_dict output_list pre o rest d1 j :
  fst (collect_inputs (Node.input node) [] d) = Ok input_dict ->
  sess_run c node (node_inputs_of node graph) (node_outputs_of node graph)
    input_dict = Ok output_list ->
  Node.output node = pre ++ o :: rest ->
  reconcile (node_outputs_of node graph) output_list pre None d = (Ok tt, d1) ->
  last_declared (node_outputs_of node graph) o j ->
  length output_list <= j ->
  execute_generic c node graph d
  = (Raise (IndexError "list index out of range"), d1).
Proof.
  intros Hin Hrun Hout Hpre Hlast Hlen.
  destruct (execute_generic_at c node graph d input_dict output_list pre o rest
              d1 j) as [-> Hs]; try done.
  unfold bind, reconcile_output. rewrite Hs.
  by rewrite (lookup_ge_None_2 output_list j).
Qed.

Lemma generic_path_short_result_witness :
  execute_generic (Fixtures.collaborators MoreFixtures.short_backend)
    Fixtures.split_node Fixtures.split_graph
    (Fixtures.empty_context Fixtures.split_graph)
  = (Raise (IndexError "list index out of range"),
     Fixtures.empty_context Fixtures.split_graph).
Proof.
  apply (generic_path_short_result _ _ _ _ [("x", zeros [4])]
           [Fixtures.named_buffer (mk_ValueInfo "b" [3])] [] "a" ["b"] _ 1);
    try done.
  exists (mk_ValueInfo "a" [1]). split; [done|]. split; [done|].
  intros [|[|j']] vj' Hlt Hj'; [lia..|done].
Defined.

(** X4: in the generic path, an output that is declared and for which the
    backend returned a buffer, but for which the context has no entry,
    makes its round raise [KeyError]; what the earlier rounds stored stays
    in the context. *)
Theorem generic_path_output_without_slot
    c node graph d input_dict output_list pre o rest d1 j buf :
  fst (collect_inputs (Node.input node) [] d) = Ok input_dict ->
  sess_run c node (node_inputs_of node graph) (node_outputs_of node graph)
    input_dict = Ok output_list ->
  Node.output node = pre ++ o :: rest ->
  reconcile (node_outputs_of node graph) output_list pre None d = (Ok tt, d1) ->
  last_declared (node_outputs_of node graph) o j ->
  output_list !! j = Some buf ->
  dict_get o d1 = None ->
  execute_generic c node graph d = (Raise (KeyError o), d1).
Proof.
  intros Hin Hrun Hout Hpre Hlast Hbuf Hslot.
  destruct (execute_generic_at c node graph d input_dict output_list pre o rest
              d1 j) as [-> Hs]; try done.
  unfold bind, reconcile_output. rewrite Hs, Hbuf.
  unfold bind, getitem. by rewrite Hslot.
Qed.

Lemma generic_path_output_without_slot_witness :
  execute_generic (Fixtures.collaborators Fixtures.backend)
    Fixtures.split_node Fixtures.split_graph
    [("x", zeros [4]); ("a", zeros [1])]
  = (Raise (KeyError "b"),
     [("x", zeros [4]); ("a", Fixtures.named_buffer (mk_ValueInfo "a" [1]))]).
Proof.
  apply (generic_path_output_without_slot _ _ _ _ [("x", zeros [4])]
           [Fixtures.named_buffer (mk_ValueInfo "b" [3]);
            Fixtures.named_buffer (mk_ValueInfo "a" [1])]
           ["a"] "b" [] _ 0 (Fixtures.named_buffer (mk_ValueInfo "b" [3])));
    try done.
  exists (mk_ValueInfo "b" [3]). split; [done|]. split; [done|].
  intros [|[|[|j']]] vj' Hlt Hj'; try lia; try done.
  injection Hj' as <-. done.
Defined.

(** X5: in the generic path, when an output name is declared more than
    once in the single-node model (among the graph's outputs and again among
    its value-info), the buffer stored under it is the one the backend
    returned at the position of the last declaration. *)
Theorem generic_path_last_declaration_wins
    c node graph d input_dict output_list pre o rest d1 j buf cur :
  fst (collect_inputs (Node.input node) [] d) = Ok input_dict ->
  sess_run c node (node_inputs_of node graph) (node_outputs_of node graph)
    input_dict = Ok output_list ->
  Node.output node = pre ++ o :: rest ->
  reconcile (node_outputs_of node graph) output_list pre None d = (Ok tt, d1) ->
  last_declared (node_outputs_of node graph) o j ->
  output_list !! j = Some buf ->
  dict_get o d1 = Some cur ->
  shape buf = shape cur ->
  execute_generic c node graph d
  = reconcile (node_outputs_of node graph) output_list rest (Some j)
      (dict_set o buf d1).
Proof.
  intros Hin Hrun Hout Hpre Hlast Hbuf Hslot Hsh.
  destruct (execute_generic_at c node graph d input_dict output_list pre o rest
              d1 j) as [-> Hs]; try done.
  unfold bind at 1.
  by rewrite (reconcile_output_store _ _ o (Some j) j buf cur).
Qed.

(** [y] is declared at positions 0 and 1; the buffer marked 1 is stored. *)
Lemma generic_path_last_declaration_wins_witness :
  execute_generic (Fixtures.collaborators MoreFixtures.positional_backend)
    MoreFixtures.relu_node MoreFixtures.twice_declared_graph
    [("x", zeros [4]); ("y", zeros [4])]
  = (Ok tt, [("x", zeros [4]); ("y", {| shape := [4]; data := [1%Z] |})]).
Proof.
  etransitivity; [|reflexivity].
  apply (generic_path_last_declaration_wins _ _ _ _ [("x", zeros [4])]
           [{| shape := [4]; data := [0%Z] |}; {| shape := [4]; data := [1%Z] |}]
           [] "y" [] [("x", zeros [4]); ("y", zeros [4])] 1
           {| shape := [4]; data := [1%Z] |} (zeros [4]));
    try done.
  exists (mk_ValueInfo "y" [4]). split; [done|]. split; [done|].
  intros [|[|[|j']]] vj' Hlt Hj'; try lia; done.
Defined.

Lemma same_layout_refl d : same_layout d d.
Proof. by split. Qed.

Lemma same_layout_trans d1 d2 d3 :
  same_layout d1 d2 -> same_layout d2 d3 -> same_layout d1 d3.
Proof.
  intros [Hk1 Hs1] [Hk2 Hs2]. split; [congruence|].
  intros k. by rewrite Hs2, Hs1.
Qed.

Lemma same_layout_set k v cur d :
  dict_get k d = Some cur -> shape v = shape cur ->
  same_layout d (dict_set k v d).
Proof.
  intros Hcur Hsh. split.
  - apply dict_keys_set_present. by eapply dict_get_Some_keys.
  - intros k'. rewrite dict_get_set. case_decide as Hk; [|done].
    subst k'. rewrite Hcur. simpl. by rewrite Hsh.
Qed.

Lemma reconcile_output_layout no ol o li d :
  same_layout d (snd (reconcile_output no ol o li d)).
Proof.
  unfold reconcile_output.
  destruct (scan_list_ind o no 0 li) as [i|]; [|apply same_layout_refl].
  destruct (ol !! i) as [buf|]; [|apply same_layout_refl].
  unfold bind, getitem.
  destruct (dict_get o d) as [cur|] eqn:Hcur; [|apply same_layout_refl].
  case_decide as Hsh; [apply same_layout_refl|]. simpl.
  apply same_layout_set with cur; [done|].
  by destruct (decide (shape buf = shape cur)).
Qed.

Lemma reconcile_layout no ol outs li d :
  same_layout d (snd (reconcile no ol outs li d)).
Proof.
  revert li d. induction outs as [|o outs IH]; intros li d; simpl.
  - apply same_layout_refl.
  - unfold bind. pose proof (reconcile_output_layout no ol o li d) as H1.
    destruct (reconcile_output no ol o li d) as [[li'|e] d1]; simpl in *;
      [|done].
    eapply same_layout_trans; [exact H1|apply IH].
Qed.

Lemma execute_generic_layout c node graph d :
  same_layout d (snd (execute_generic c node graph d)).
Proof.
  unfold execute_generic, bind at 1.
  pose proof (collect_inputs_state (Node.input node) [] d) as Hst.
  destruct (collect_inputs (Node.input node) [] d) as [[input_dict|e] d0];
    simpl in Hst; subst d0; [|apply same_layout_refl].
  unfold bind, lift_result.
  destruct (sess_run c node _ _ input_dict) as [ol|e];
    [apply reconcile_layout | apply same_layout_refl].
Qed.

(** X6: whatever the backend returns and whether the call returns or
    raises, the generic path leaves the context with the same keys in the
    same order and with a buffer of the same shape under every key, and
    touches no other object of the store. *)
Theorem generic_path_keeps_layout c depth node ctx graph (h : heap) d :
  Node.op_type node ≠ "StreamingDataflowPartition" ->
  Node.domain node ≠ "finn" ->
  h !! ctx = Some d ->
  exists d',
    snd (execute_node c depth node ctx graph h) = <[ctx := d']> h
    /\ dict_keys d' = dict_keys d
    /\ forall k, shape <$> dict_get k d' = shape <$> dict_get k d.
Proof.
  intros Hop Hdom Hctx.
  rewrite execute_node_generic by done.
  rewrite (at_loc_run _ _ _ d) by done. simpl.
  exists (snd (execute_generic c node graph d)). split; [done|].
  apply execute_generic_layout.
Qed.

Lemma generic_path_keeps_layout_witness :
  exists d',
    snd (execute_node (Fixtures.collaborators Fixtures.wide_backend) 1
           Fixtures.split_node 0 Fixtures.split_graph
           [Fixtures.empty_context Fixtures.split_graph])
    = [d']
    /\ dict_keys d' = ["x"; "b"; "a"].
Proof.
  destruct (generic_path_keeps_layout
              (Fixtures.collaborators Fixtures.wide_backend) 1
              Fixtures.split_node 0 Fixtures.split_graph
              [Fixtures.empty_context Fixtures.split_graph]
              (Fixtures.empty_context Fixtures.split_graph))
    as (d' & Hrun & Hkeys & _); try done.
  exists d'. split; [exact Hrun | exact Hkeys].
Defined.

(** ** The binding loop *)

Lemma dict_get_is_Some_keys k d : k ∈ dict_keys d -> is_Some (dict_get k d).
Proof.
  intros Hk. destruct (dict_get k d) eqn:E; [eauto|].
  by apply dict_get_None_keys in E.
Qed.

Lemma fits_layout din dctx dctx' k :
  same_layout dctx dctx' -> fits din dctx k -> fits din dctx' k.
Proof.
  intros [_ Hsh] Hfit cur' given Hcur' Hgiven.
  specialize (Hsh k). rewrite Hcur' in Hsh.
  destruct (dict_get k dctx) as [cur|] eqn:Hcur; [|done].
  injection Hsh as Hsh. rewrite Hsh. by apply Hfit.
Qed.

(** The binding loop over [names], all of them keys of the input
    dictionary: what it leaves in the context, and how it ends. *)
Lemma for_each_bind_input_run input_dict ctx din names :
  input_dict ≠ ctx ->
  forall (h : heap) dctx,
    h !! input_dict = Some din -> h !! ctx = Some dctx ->
    (forall k, k ∈ names -> is_Some (dict_get k din)) ->
    exists dctx',
      snd (for_each names (bind_input input_dict ctx) h) = <[ctx := dctx']> h
      /\ same_layout dctx dctx'
      /\ ((fst (for_each names (bind_input input_dict ctx) h) = Ok tt
           /\ (forall k, k ∈ names -> fits din dctx k)
           /\ forall k,
                dict_get k dctx'
                = if decide (k ∈ names /\ is_Some (dict_get k dctx))
                  then dict_get k din else dict_get k dctx)
          \/ (exists k cur given e,
                k ∈ names /\ dict_get k dctx = Some cur
                /\ dict_get k din = Some given /\ shape cur ≠ shape given
                /\ fst (for_each names (bind_input input_dict ctx) h) = Raise e)).
Proof.
  intros Hne. induction names as [|n names IH]; intros h dctx Hin Hctx Hkeys.
  - exists dctx. split; [by rewrite list_insert_id|].
    split; [apply same_layout_refl|]. left. split; [done|].
    split; [intros k Hk; by apply elem_of_nil in Hk|].
    intros k. rewrite decide_False; [done|].
    intros [Hk _]. by apply elem_of_nil in Hk.
  - cbn [for_each]. unfold bind.
    rewrite (bind_input_run _ _ n h din dctx) by done.
    destruct (dict_get n dctx) as [cur|] eqn:Hcur.
    + destruct (Hkeys n) as [given Hgiven]; [apply list_elem_of_here|].
      rewrite Hgiven. case_decide as Hsh.
      * destruct (IH (<[ctx := dict_set n given dctx]> h) (dict_set n given dctx))
          as (dctx' & Hsnd & Hlay & Hend).
        { by rewrite list_lookup_insert_ne. }
        { apply list_lookup_insert_eq. by eapply lookup_lt_Some. }
        { intros k Hk. by apply Hkeys, list_elem_of_further. }
        assert (Hlay1 : same_layout dctx (dict_set n given dctx))
          by by apply same_layout_set with cur.
        exists dctx'. split; [by rewrite Hsnd, list_insert_insert_eq|].
        split; [by eapply same_layout_trans|].
        destruct Hend as [(Hok & Hfits & Hget)|(k & cur' & given' & e & Hk & Hc & Hg & Hs & He)].
        -- left. split; [done|]. split.
           ++ intros k [->|Hk]%elem_of_cons.
              ** intros c g Hc Hg. congruence.
              ** apply fits_layout with (dict_set n given dctx).
                 { destruct Hlay1 as [Hk1 Hs1]. split; [done|].
                   intros k'. by rewrite Hs1. }
                 by apply Hfits.
           ++ intros k. rewrite Hget, dict_get_set.
              destruct (decide (n = k)) as [->|Hnk].
              ** rewrite Hcur.
                 rewrite (decide_True (P := k ∈ k :: names /\ _));
                   [|split; [apply list_elem_of_here | eauto]].
                 by case_decide.
              ** destruct (decide (k ∈ names /\ is_Some (dict_get k dctx)))
                   as [[Hk1 Hk2]|Hno].
                 { rewrite decide_True; [|split; [by apply list_elem_of_further|done]].
                   done. }
                 { rewrite decide_False; [done|].
                   intros [[?|Hk1]%elem_of_cons Hk2]; [congruence|].
                   by apply Hno. }
        -- right. rewrite dict_get_set in Hc.
           destruct (decide (n = k)) as [->|Hnk].
           ++ injection Hc as <-. rewrite Hgiven in Hg. by injection Hg as <-.
           ++ exists k, cur', given', e. split; [by apply list_elem_of_further|].
              done.
      * exists dctx. split; [by rewrite list_insert_id|].
        split; [apply same_layout_refl|]. right.
        exists n, cur, given. eexists.
        split; [apply list_elem_of_here|]. done.
    + destruct (IH h dctx Hin Hctx) as (dctx' & Hsnd & Hlay & Hend).
      { intros k Hk. by apply Hkeys, list_elem_of_further. }
      exists dctx'. split; [done|]. split; [done|].
      destruct Hend as [(Hok & Hfits & Hget)|(k & cur' & given' & e & Hk & Hc & Hg & Hs & He)].
      * left. split; [done|]. split.
        -- intros k [->|Hk]%elem_of_cons; [|by apply Hfits].
           intros c g Hc. congruence.
        -- intros k. rewrite Hget.
           destruct (decide (k ∈ names /\ is_Some (dict_get k dctx)))
             as [[Hk1 Hk2]|Hno].
           { rewrite decide_True; [|split; [by apply list_elem_of_further|done]].
             done. }
           { rewrite decide_False; [done|].
             intros [[->|Hk1]%elem_of_cons [? Hk2]]; [congruence|].
             apply Hno. eauto. }
      * right. exists k, cur', given', e.
        split; [by apply list_elem_of_further|]. done.
Qed.

Lemma bind_inputs_run input_dict ctx (h : heap) din :
  h !! input_dict = Some din ->
  bind_inputs input_dict ctx h
  = for_each (dict_keys din) (bind_input input_dict ctx) h.
Proof.
  intros Hin. unfold bind_inputs, bind.
  rewrite (at_loc_run _ _ _ din) by done. simpl. by rewrite list_insert_id.
Qed.

(** X7: the binding loop, however it ends, leaves the execution context
    with the keys [make_empty_exec_context] gave it, in the same order, and
    with a buffer of the same shape under every key; it touches no other
    object. *)
Theorem bind_inputs_keeps_layout input_dict ctx (h : heap) din dctx :
  input_dict ≠ ctx ->
  h !! input_dict = Some din ->
  h !! ctx = Some dctx ->
  exists dctx',
    snd (bind_inputs input_dict ctx h) = <[ctx := dctx']> h
    /\ dict_keys dctx' = dict_keys dctx
    /\ forall k, shape <$> dict_get k dctx' = shape <$> dict_get k dctx.
Proof.
  intros Hne Hin Hctx. rewrite (bind_inputs_run _ _ _ din) by done.
  destruct (for_each_bind_input_run input_dict ctx din (dict_keys din) Hne
              h dctx Hin Hctx) as (dctx' & Hsnd & Hlay & _).
  { intros k. apply dict_get_is_Some_keys. }
  exists dctx'. split; [done|]. exact Hlay.
Qed.

Lemma bind_inputs_keeps_layout_witness :
  exists dctx',
    snd (bind_inputs 0 1 [[("x", zeros [4]); ("q", zeros [1])];
                          Fixtures.empty_context Fixtures.split_graph])
    = [[("x", zeros [4]); ("q", zeros [1])]; dctx']
    /\ dict_keys dctx' = ["x"; "b"; "a"].
Proof.
  destruct (bind_inputs_keeps_layout 0 1
              [[("x", zeros [4]); ("q", zeros [1])];
               Fixtures.empty_context Fixtures.split_graph]
              [("x", zeros [4]); ("q", zeros [1])]
              (Fixtures.empty_context Fixtures.split_graph))
    as (dctx' & Hrun & Hkeys & _); try done.
  exists dctx'. split; [exact Hrun | exact Hkeys].
Defined.

(** X8: the binding loop returns exactly when every binding fits the slot
    the context has under its name, if it has one; the context then holds
    the bound buffer under every name that is both bound and in the context,
    and its pre-allocated buffer under every other name. *)
Theorem bind_inputs_succeeds_iff_fits input_dict ctx (h : heap) din dctx :
  input_dict ≠ ctx ->
  h !! input_dict = Some din ->
  h !! ctx = Some dctx ->
  (fst (bind_inputs input_dict ctx h) = Ok tt <-> forall k, fits din dctx k)
  /\ (fst (bind_inputs input_dict ctx h) = Ok tt ->
      exists dctx',
        snd (bind_inputs input_dict ctx h) = <[ctx := dctx']> h
        /\ forall k,
             dict_get k dctx'
             = match dict_get k dctx, dict_get k din with
               | Some _, Some given => Some given
               | _, _ => dict_get k dctx
               end).
Proof.
  intros Hne Hin Hctx. rewrite (bind_inputs_run _ _ _ din) by done.
  destruct (for_each_bind_input_run input_dict ctx din (dict_keys din) Hne
              h dctx Hin Hctx) as (dctx' & Hsnd & Hlay & Hend).
  { intros k. apply dict_get_is_Some_keys. }
  destruct Hend as [(Hok & Hfits & Hget)|(k & cur & given & e & Hk & Hc & Hg & Hs & He)].
  - split.
    + split; [|done]. intros _ k cur given Hc Hg.
      apply (Hfits k); [|done..]. by eapply dict_get_Some_keys.
    + intros _. exists dctx'. split; [done|]. intros k. rewrite Hget.
      destruct (dict_get k dctx) as [cur|] eqn:Hc.
      * destruct (dict_get k din) as [given|] eqn:Hg.
        -- rewrite decide_True; [done|].
           split; [by eapply dict_get_Some_keys | eauto].
        -- rewrite decide_False; [done|]. intros [Hk _].
           by apply dict_get_None_keys in Hg.
      * rewrite decide_False; [done|]. by intros [_ [? ?]].
  - split.
    + split; [by rewrite He|]. intros Hfits. by destruct Hs; apply (Hfits k).
    + by rewrite He.
Qed.

Lemma bind_inputs_succeeds_iff_fits_witness :
  fst (bind_inputs 0 1 [[("x", zeros [4]); ("q", zeros [1])];
                        Fixtures.empty_context Fixtures.split_graph]) = Ok tt.
Proof.
  apply (proj1 (bind_inputs_succeeds_iff_fits 0 1
                  [[("x", zeros [4]); ("q", zeros [1])];
                   Fixtures.empty_context Fixtures.split_graph]
                  [("x", zeros [4]); ("q", zeros [1])]
                  (Fixtures.empty_context Fixtures.split_graph)
                  ltac:(done) eq_refl eq_refl)).
  intros k cur given Hc Hg.
  destruct (decide (k = "x")) as [->|Hx].
  - vm_compute in Hc, Hg. by injection Hc as <-; injection Hg as <-.
  - destruct (decide (k = "q")) as [->|Hq]; [done|].
    simpl in Hg. apply String.eqb_neq in Hx, Hq. by rewrite Hx, Hq in Hg.
Defined.

(** The binding loop stops at the first binding that does not fit. *)
Lemma for_each_bind_input_first_misfit input_dict ctx din k given rest :
  input_dict ≠ ctx ->
  dict_get k din = Some given ->
  forall pre (h : heap) dctx cur,
    h !! input_dict = Some din -> h !! ctx = Some dctx ->
    (forall p, p ∈ pre -> is_Some (dict_get p din) /\ fits din dctx p) ->
    dict_get k dctx = Some cur -> shape cur ≠ shape given ->
    fst (for_each (pre ++ k :: rest) (bind_input input_dict ctx) h)
    = Raise (Exception (input_shape_msg k (str_shape (shape cur))
                          (str_shape (shape given)))).
Proof.
  intros Hne Hg. induction pre as [|p pre IH];
    intros h dctx cur Hin Hctx Hpre Hc Hs.
  - cbn [app for_each]. unfold bind.
    rewrite (bind_input_run _ _ k h din dctx) by done.
    rewrite Hc, Hg. by rewrite decide_False.
  - cbn [app for_each]. unfold bind.
    rewrite (bind_input_run _ _ p h din dctx) by done.
    destruct (Hpre p) as [[gp Hgp] Hfit]; [apply list_elem_of_here|].
    assert (Hrest : forall q, q ∈ pre ->
                      is_Some (dict_get q din) /\ fits din dctx q)
      by (intros q Hq; by apply Hpre, list_elem_of_further).
    destruct (dict_get p dctx) as [cp|] eqn:Hcp; [|by apply IH with dctx].
    rewrite Hgp. rewrite decide_True by by apply Hfit.
    assert (Hpk : p ≠ k).
    { intros ->. apply Hs. rewrite Hc in Hcp. injection Hcp as <-.
      rewrite Hg in Hgp. injection Hgp as <-. by apply Hfit. }
    apply IH with (dict_set p gp dctx).
    + by rewrite list_lookup_insert_ne.
    + apply list_lookup_insert_eq. by eapply lookup_lt_Some.
    + intros q Hq. destruct (Hrest q Hq) as [Hsome Hfq]. split; [done|].
      apply fits_layout with dctx; [|done].
      apply same_layout_set with cp; [done|]. symmetry. by apply Hfit.
    + by rewrite dict_get_set_ne.
    + done.
Qed.

Lemma execute_onnx_first_misfit
    c depth model input_dict full (h : heap) din pre k rest cur given :
  Model.check_all_tensor_shapes_specified model = true ->
  h !! input_dict = Some din ->
  dict_keys din = pre ++ k :: rest ->
  (forall p, p ∈ pre -> fits din (Model.make_empty_exec_context model) p) ->
  dict_get k (Model.make_empty_exec_context model) = Some cur ->
  dict_get k din = Some given ->
  shape cur ≠ shape given ->
  fst (execute_onnx c (S depth) model input_dict full h)
  = Raise (Exception (input_shape_msg k (str_shape (shape cur))
                        (str_shape (shape given)))).
Proof.
  intros Hcheck Hin Hkeys Hpre Hc Hg Hs.
  assert (Hlt : input_dict < length h) by by eapply lookup_lt_Some.
  simpl. unfold execute_onnx_body. rewrite Hcheck. simpl.
  unfold bind at 1. simpl. unfold bind at 1.
  rewrite (bind_inputs_run _ _ _ din) by by apply lookup_app_l_Some.
  rewrite Hkeys.
  pose proof (for_each_bind_input_first_misfit input_dict (length h) din k
                given rest ltac:(lia) Hg pre
                (h ++ [Model.make_empty_exec_context model])
                (Model.make_empty_exec_context model) cur) as Hmis.
  destruct (for_each (pre ++ k :: rest) _ _) as [r h1]. simpl in Hmis.
  rewrite Hmis; [done|..]; try done.
  - by apply lookup_app_l_Some.
  - replace (length h) with (length h + 0) at 1 by lia.
    by rewrite lookup_app_r, Nat.add_comm, Nat.add_sub by lia.
  - intros p Hp. split; [|by apply Hpre].
    apply dict_get_is_Some_keys. rewrite Hkeys.
    apply elem_of_app. by left.
Qed.

(** X9: when the shapes are specified, the first input binding, in the
    order of the input dictionary, whose shape differs from the shape of
    the context entry of the same name decides how the call ends: with the
    report for that name, whatever the execution mode, the nodes and the
    collaborators are. *)
Theorem execute_onnx_reports_first_misfit
    c depth model input_dict full (h : heap) din pre k rest cur given :
  Model.check_all_tensor_shapes_specified model = true ->
  h !! input_dict = Some din ->
  dict_keys din = pre ++ k :: rest ->
  (forall p, p ∈ pre -> fits din (Model.make_empty_exec_context model) p) ->
  dict_get k (Model.make_empty_exec_context model) = Some cur ->
  dict_get k din = Some given ->
  shape cur ≠ shape given ->
  fst (execute_onnx c (S depth) model input_dict full h)
  = Raise (Exception (input_shape_msg k (str_shape (shape cur))
                        (str_shape (shape given)))).
Proof.
  intros Hcheck Hin Hkeys Hpre Hc Hg Hs.
  assert (Hlt : input_dict < length h) by by eapply lookup_lt_Some.
  simpl. unfold execute_onnx_body. rewrite Hcheck. simpl.
  unfold bind at 1. simpl. unfold bind at 1.
  rewrite (bind_inputs_run _ _ _ din) by by apply lookup_app_l_Some.
  rewrite Hkeys.
  pose proof (for_each_bind_input_first_misfit input_dict (length h) din k
                given rest ltac:(lia) Hg pre
                (h ++ [Model.make_empty_exec_context model])
                (Model.make_empty_exec_context model) cur) as Hmis.
  destruct (for_each (pre ++ k :: rest) _ _) as [r h1]. simpl in Hmis.
  rewrite Hmis; [done|..]; try done.
  - by apply lookup_app_l_Some.
  - replace (length h) with (length h + 0) at 1 by lia.
    by rewrite lookup_app_r, Nat.add_comm, Nat.add_sub by lia.
  - intros p Hp. split; [|by apply Hpre].
    apply dict_get_is_Some_keys. rewrite Hkeys.
    apply elem_of_app. by left.
Qed.

(** The flag holds an unknown value, and still the report for [x] is what
    the caller gets. *)
Lemma execute_onnx_reports_first_misfit_witness :
  fst (execute_onnx (Fixtures.collaborators Fixtures.backend) 1
         (Fixtures.model_of Fixtures.split_graph (Some "cppsim")) 0 false
         [[("q", zeros [1]); ("x", zeros [5]); ("a", zeros [7])]])
  = Raise (Exception
             "Shape mismatch for provided input x: found (4,) expected (5,) ").
Proof.
  apply (execute_onnx_reports_first_misfit _ 0 _ 0 false _
           [("q", zeros [1]); ("x", zeros [5]); ("a", zeros [7])]
           ["q"] "x" ["a"] (zeros [4]) (zeros [5])); try done.
  intros p [->|Hp]%elem_of_cons; [|by apply elem_of_nil in Hp].
  intros cur given Hc. done.
Defined.

(** ** The node loop and the result *)

Lemma for_each_app_raise {S A} (pre : list A) x rest (body : A -> ST S unit)
    s s1 s2 e :
  for_each pre body s = (Ok tt, s1) ->
  body x s1 = (Raise e, s2) ->
  for_each (pre ++ x :: rest) body s = (Raise e, s2).
Proof.
  revert s. induction pre as [|p pre IH]; intros s; simpl.
  - intros [= ->] Hx. unfold bind. by rewrite Hx.
  - unfold bind. destruct (body p s) as [[[]|e'] s']; [|done].
    intros Hpre Hx. by apply IH.
Qed.

(** X10: in node-by-node mode the first node that raises ends the call
    with its exception: the nodes after it are not run, no result is built,
    and the store is as that node left it. *)
Theorem execute_onnx_stops_at_failing_node
    c depth model input_dict full (h h1 h2 h3 : heap) pre n rest e :
  Model.check_all_tensor_shapes_specified model = true ->
  Model.get_metadata_prop model "exec_mode" = None
  \/ Model.get_metadata_prop model "exec_mode" = Some "" ->
  bind_inputs input_dict (length h) (h ++ [Model.make_empty_exec_context model])
  = (Ok tt, h1) ->
  Graph.node (Model.graph model) = pre ++ n :: rest ->
  for_each pre
    (fun node => execute_node c depth node (length h) (Model.graph model)) h1
  = (Ok tt, h2) ->
  execute_node c depth n (length h) (Model.graph model) h2 = (Raise e, h3) ->
  execute_onnx c (S depth) model input_dict full h = (Raise e, h3).
Proof.
  intros Hcheck Hmode Hbind Hnodes Hpre Hn.
  simpl. unfold execute_onnx_body. rewrite Hcheck. simpl.
  unfold bind at 1. simpl. unfold bind at 1. rewrite Hbind.
  unfold bind at 1, run_exec_mode.
  assert (bool_decide (Model.get_metadata_prop model "exec_mode" = None)
          || bool_decide (Model.get_metadata_prop model "exec_mode" = Some "")
          = true) as ->.
  { destruct Hmode as [-> | ->]; reflexivity. }
  rewrite Hnodes.
  by rewrite (for_each_app_raise pre n rest _ h1 h2 h3 e).
Qed.

(** The second node has no handler; the third is never run, so the store
    holds what the first node wrote and nothing else. *)
Lemma execute_onnx_stops_at_failing_node_witness :
  execute_onnx (Fixtures.collaborators Fixtures.backend) 1
    (Fixtures.model_of MoreFixtures.two_node_graph None) 0 false
    [[("x", zeros [4])]]
  = (Raise (CollaboratorError "no handler"),
     [[("x", zeros [4])];
      [("x", zeros [4]); ("z", zeros [4]);
       ("y", Fixtures.named_buffer (mk_ValueInfo "y" [4]))]]).
Proof.
  apply (execute_onnx_stops_at_failing_node _ 0 _ 0 false _
           [[("x", zeros [4])];
            [("x", zeros [4]); ("z", zeros [4]); ("y", zeros [4])]]
           [[("x", zeros [4])];
            [("x", zeros [4]); ("z", zeros [4]);
             ("y", Fixtures.named_buffer (mk_ValueInfo "y" [4]))]]
           _ [MoreFixtures.relu_node] MoreFixtures.custom_node
           [MoreFixtures.relu_node]); try done.
  by left.
Defined.

(** X11: the dictionary a call of [execute_onnx] returns is an object
    allocated during the call: it is none of the objects that existed
    before, the input dictionary among them, and when the full context was
    not asked for it is not the execution context either. *)
Theorem execute_onnx_returns_new_object
    c depth model input_dict full (h h' : heap) r :
  execute_onnx c depth model input_dict full h = (Ok r, h') ->
  length h <= r < length h'
  /\ (full = false -> length h < r).
Proof.
  intros E. split; [by eapply execute_onnx_fresh|].
  intros ->. rewrite execute_onnx_split in E. unfold bind in E.
  destruct (execute_onnx c depth model input_dict true h) as [[ctx|e] h1] eqn:E1;
    [|done].
  pose proof (execute_onnx_full_returns_context _ _ _ _ _ _ _ E1) as ->.
  apply execute_onnx_fresh in E1 as [_ Hlt].
  unfold return_outputs, bind in E. simpl in E.
  destruct (for_each _ _ _) as [[[]|e] h2]; [|done].
  injection E as <- _. done.
Qed.

Lemma execute_onnx_returns_new_object_witness :
  1 <= 2 < 3 /\ (false = false -> 1 < 2).
Proof.
  exact (execute_onnx_returns_new_object
           (Fixtures.collaborators Fixtures.backend) 1
           (Fixtures.model_of Fixtures.split_graph None) 0 false
           [[("x", zeros [4])]]
           (snd (execute_onnx (Fixtures.collaborators Fixtures.backend) 1
                   (Fixtures.model_of Fixtures.split_graph None) 0 false
                   [[("x", zeros [4])]]))
           2 eq_refl).
Defined.

(** ** Partition nodes: failure and pass-through *)

(** X12: a partition node that raises, because the nested graph cannot be
    loaded or because its execution fails, leaves the caller's context and
    every other object that existed before as they were: the merge into the
    caller's context happens only after the nested call has returned. *)
Theorem partition_failure_keeps_context
    c depth node ctx graph (h : heap) d e :
  Node.op_type node = "StreamingDataflowPartition" ->
  h !! ctx = Some d ->
  fst (execute_node c depth node ctx graph h) = Raise e ->
  forall l, l < length h ->
    snd (execute_node c depth node ctx graph h) !! l = h !! l.
Proof.
  intros Hop Hctx. unfold execute_node, execute_node_with.
  rewrite Hop. simpl. unfold bind, lift_result, deref.
  destruct (load_partition_model c node) as [model|e0]; [|done].
  pose proof (execute_onnx_store_kept c depth model ctx true h) as Hkept.
  destruct (execute_onnx c depth model ctx true h) as [[r|e0] h1] eqn:E;
    simpl in Hkept; [|by intros _ l Hl; apply Hkept].
  apply execute_onnx_fresh in E as [_ Hlt].
  destruct (lookup_lt_is_Some_2 h1 r Hlt) as [other Hother].
  rewrite Hother.
  rewrite (at_loc_run _ _ _ d); [done|].
  rewrite Hkept; [done|]. by eapply lookup_lt_Some.
Qed.

Lemma partition_failure_keeps_context_witness :
  snd (execute_node MoreFixtures.no_loader 1 Fixtures.partition_node 0
         Fixtures.partition_graph [[("x", zeros [4])]]) !! 0
  = Some [("x", zeros [4])].
Proof.
  apply (partition_failure_keeps_context MoreFixtures.no_loader 1
           Fixtures.partition_node 0 Fixtures.partition_graph
           [[("x", zeros [4])]] [("x", zeros [4])]
           (CollaboratorError "no such file") eq_refl eq_refl eq_refl 0).
  simpl. lia.
Defined.

(** X13: a partition node hands the caller's whole context to the nested
    call as its input bindings.  So a tensor of the caller's context that
    the nested graph declares with another shape makes the partition node
    raise the input-shape report for that name, the first such name in the
    order of the caller's context; the caller's context stays as it was. *)
Theorem partition_binds_caller_context
    c depth node ctx graph (h : heap) d model pre k rest cur given :
  Node.op_type node = "StreamingDataflowPartition" ->
  load_partition_model c node = Ok model ->
  Model.check_all_tensor_shapes_specified model = true ->
  h !! ctx = Some d ->
  dict_keys d = pre ++ k :: rest ->
  (forall p, p ∈ pre -> fits d (Model.make_empty_exec_context model) p) ->
  dict_get k (Model.make_empty_exec_context model) = Some cur ->
  dict_get k d = Some given ->
  shape cur ≠ shape given ->
  fst (execute_node c (S depth) node ctx graph h)
  = Raise (Exception (input_shape_msg k (str_shape (shape cur))
                        (str_shape (shape given))))
  /\ snd (execute_node c (S depth) node ctx graph h) !! ctx = Some d.
Proof.
  intros Hop Hload Hcheck Hctx Hkeys Hpre Hc Hg Hs.
  pose proof (execute_onnx_first_misfit c depth model ctx true h d pre k rest
                cur given Hcheck Hctx Hkeys Hpre Hc Hg Hs) as Hmis.
  pose proof (execute_onnx_store_kept c (S depth) model ctx true h ctx) as Hkept.
  unfold execute_node, execute_node_with.
  rewrite Hop, String.eqb_refl.
  unfold bind, lift_result. rewrite Hload.
  destruct (execute_onnx c (S depth) model ctx true h) as [r h1].
  simpl in Hmis, Hkept. subst r. simpl. split; [done|].
  rewrite Hkept; [done|]. by eapply lookup_lt_Some.
Qed.

(** The nested graph declares [a] with shape (2,); the caller's context
    holds an [a] of shape (3,). *)
Lemma partition_binds_caller_context_witness :
  fst (execute_node (Fixtures.collaborators Fixtures.backend) 1
         Fixtures.partition_node 0 Fixtures.partition_graph
         [[("x", zeros [4]); ("a", zeros [3])]])
  = Raise (Exception
             "Shape mismatch for provided input a: found (2,) expected (3,) ")
  /\ snd (execute_node (Fixtures.collaborators Fixtures.backend) 1
            Fixtures.partition_node 0 Fixtures.partition_graph
            [[("x", zeros [4]); ("a", zeros [3])]]) !! 0
     = Some [("x", zeros [4]); ("a", zeros [3])].
Proof.
  apply (partition_binds_caller_context _ 0 _ 0 _ _
           [("x", zeros [4]); ("a", zeros [3])]
           (Fixtures.model_of Fixtures.nested_graph None)
           ["x"] "a" [] (zeros [2]) (zeros [3])); try done.
  intros p [->|Hp]%elem_of_cons; [|by apply elem_of_nil in Hp].
  intros cur given Hc. done.
Defined.

(** ** [compare_execution] *)

(** The projection loop keeps the first item of the dictionary it fills,
    once that item holds the buffer of the final context. *)
Lemma project_outputs_head (outs : list ValueInfo) ctx o k0 v0 final :
  ctx ≠ o -> dict_get k0 final = Some v0 ->
  forall (h h' : heap) acc0,
    h !! ctx = Some final -> h !! o = Some ((k0, v0) :: acc0) ->
    for_each outs
      (fun out_tensor =>
         let out_name := name out_tensor in
         let! v := at_loc ctx (getitem out_name) in
         at_loc o (setitem out_name v)) h = (Ok tt, h') ->
    h' !! ctx = Some final /\ exists acc1, h' !! o = Some ((k0, v0) :: acc1).
Proof.
  intros Hne Hk0. induction outs as [|vi outs IH]; intros h h' acc0 Hctx Ho;
    cbn [for_each].
  - intros [= <-]. eauto.
  - unfold bind at 1. unfold bind at 1.
    rewrite (at_loc_getitem _ _ _ final) by done.
    destruct (dict_get (name vi) final) as [v|] eqn:Hv; [|done].
    rewrite (at_loc_run _ _ _ ((k0, v0) :: acc0)) by done.
    intros Hrest. cbn [setitem fst snd dict_set] in Hrest.
    assert (Ho' : o < length h) by by eapply lookup_lt_Some.
    destruct (String.eqb (name vi) k0) eqn:E.
    + apply String.eqb_eq in E. rewrite E in *.
      assert (v = v0) as -> by congruence.
      apply (IH _ _ acc0) in Hrest; [done| |].
      * by rewrite list_lookup_insert_ne.
      * by apply list_lookup_insert_eq.
    + apply (IH _ _ (dict_set (name vi) v acc0)) in Hrest; [done| |].
      * by rewrite list_lookup_insert_ne.
      * by apply list_lookup_insert_eq.
Qed.

(** What a call that asks for the output subset leaves under the reference
    it returns: nothing when the graph declares no output, and otherwise a
    dictionary that starts with the first declared output and the buffer the
    final context has for it. *)
Lemma execute_onnx_output_dict c depth model input_dict (h h' : heap) r :
  execute_onnx c depth model input_dict false h = (Ok r, h') ->
  exists final,
    h' !! length h = Some final
    /\ match Graph.output (Model.graph model) with
       | [] => h' !! r = Some []
       | vi :: _ =>
           exists v acc, dict_get (name vi) final = Some v
             /\ h' !! r = Some ((name vi, v) :: acc)
       end.
Proof.
  rewrite execute_onnx_split. unfold bind at 1.
  destruct (execute_onnx c depth model input_dict true h) as [[ctx|e] h1] eqn:E;
    [|done].
  pose proof (execute_onnx_full_returns_context _ _ _ _ _ _ _ E) as ->.
  pose proof (execute_onnx_fresh _ _ _ _ _ _ _ _ E) as [_ Hlt].
  destruct (lookup_lt_is_Some_2 h1 (length h) Hlt) as [final Hfinal].
  unfold return_outputs. unfold bind at 1. simpl. unfold bind at 1.
  assert (Hnew : (h1 ++ [[]]) !! length h1 = Some ([] : dict)).
  { replace (length h1) with (length h1 + 0) at 1 by lia.
    by rewrite lookup_app_r, Nat.add_comm, Nat.add_sub by lia. }
  assert (Hfin : (h1 ++ [[]]) !! length h = Some final)
    by by apply lookup_app_l_Some.
  intros Hrun. exists final. revert Hrun.
  destruct (Graph.output (Model.graph model)) as [|vi outs]; cbn [for_each].
  - intros [= <- <-]. done.
  - unfold bind at 1. unfold bind at 1.
    rewrite (at_loc_getitem _ _ _ final) by done.
    destruct (dict_get (name vi) final) as [v|] eqn:Hv; [|done].
    rewrite (at_loc_run _ _ _ []) by done. cbn [setitem fst snd dict_set].
    match goal with |- context [for_each ?l ?b ?hh] =>
      destruct (for_each l b hh) as [[[]|e] h2] eqn:Hloop; [|done] end.
    intros [= <- <-].
    apply (project_outputs_head _ _ _ (name vi) v final) with (acc0 := [])
      in Hloop as [Hf (acc1 & Hacc)]; try done.
    + split; [done|]. eauto.
    + lia.
    + by rewrite list_lookup_insert_ne by lia.
    + apply list_lookup_insert_eq. rewrite length_app. simpl. lia.
Qed.

(** X14: when the first model's execution returns but its graph declares
    no output, [compare_execution] raises [IndexError] on taking the first
    item of an empty result; the second model is not executed. *)
Theorem compare_execution_no_output
    c depth model_a model_b input_dict compare_fxn (h h' : heap) r :
  execute_onnx c depth model_a input_dict false h = (Ok r, h') ->
  Graph.output (Model.graph model_a) = [] ->
  compare_execution c depth model_a model_b input_dict compare_fxn h
  = (Raise (IndexError "list index out of range"), h').
Proof.
  intros E Hout. unfold compare_execution, bind at 1. rewrite E.
  destruct (execute_onnx_output_dict _ _ _ _ _ _ _ E) as (final & _ & Hr).
  rewrite Hout in Hr. unfold bind, deref. by rewrite Hr.
Qed.

Lemma compare_execution_no_output_witness :
  compare_execution (Fixtures.collaborators Fixtures.backend) 1
    (Fixtures.model_of MoreFixtures.no_output_graph None)
    (Fixtures.model_of Fixtures.split_graph None) 0
    MoreFixtures.always_equal [[("x", zeros [4])]]
  = (Raise (IndexError "list index out of range"),
     [[("x", zeros [4])]; [("x", zeros [4])]; []]).
Proof.
  by apply (compare_execution_no_output _ _ _ _ _ _ _ _ 2).
Defined.

(** X15: when both executions return and both graphs declare an output,
    [compare_execution] returns what the predicate says of two buffers: the
    one the first model's final context holds for the first output its graph
    declares, and the one the second model's final context holds for the
    first output its graph declares.  No other output is looked at. *)
Theorem compare_execution_first_outputs
    c depth model_a model_b input_dict compare_fxn (h h1 h2 : heap)
    ra rb va outs_a vb outs_b :
  execute_onnx c depth model_a input_dict false h = (Ok ra, h1) ->
  execute_onnx c depth model_b input_dict false h1 = (Ok rb, h2) ->
  Graph.output (Model.graph model_a) = va :: outs_a ->
  Graph.output (Model.graph model_b) = vb :: outs_b ->
  exists final_a final_b buf_a buf_b,
    h1 !! length h = Some final_a
    /\ h2 !! length h1 = Some final_b
    /\ dict_get (name va) final_a = Some buf_a
    /\ dict_get (name vb) final_b = Some buf_b
    /\ compare_execution c depth model_a model_b input_dict compare_fxn h
       = (compare_fxn buf_a buf_b, h2).
Proof.
  intros Ea Eb Houta Houtb.
  destruct (execute_onnx_output_dict _ _ _ _ _ _ _ Ea) as (fa & Hfa & Hra).
  destruct (execute_onnx_output_dict _ _ _ _ _ _ _ Eb) as (fb & Hfb & Hrb).
  rewrite Houta in Hra. rewrite Houtb in Hrb.
  destruct Hra as (buf_a & acc_a & Hba & Hra).
  destruct Hrb as (buf_b & acc_b & Hbb & Hrb).
  exists fa, fb, buf_a, buf_b. repeat (split; [done|]).
  unfold compare_execution, bind at 1. rewrite Ea.
  unfold bind at 1, deref at 1. rewrite Hra.
  unfold bind at 1, lift_result at 1. simpl.
  unfold bind at 1. rewrite Eb.
  unfold bind at 1, deref at 1. rewrite Hrb.
  unfold bind at 1, lift_result at 1. simpl. done.
Qed.

(** The first model is the split graph, whose first declared output is
    [b]; the second is the identity graph on [x]. *)
Lemma compare_execution_first_outputs_witness :
  compare_execution (Fixtures.collaborators Fixtures.backend) 1
    (Fixtures.model_of Fixtures.split_graph None)
    (Fixtures.model_of MoreFixtures.identity_graph None) 0
    MoreFixtures.same_data [[("x", zeros [4])]]
  = (Ok false,
     snd (execute_onnx (Fixtures.collaborators Fixtures.backend) 1
            (Fixtures.model_of MoreFixtures.identity_graph None) 0 false
            (snd (execute_onnx (Fixtures.collaborators Fixtures.backend) 1
                    (Fixtures.model_of Fixtures.split_graph None) 0 false
                    [[("x", zeros [4])]])))).
Proof.
  destruct (compare_execution_first_outputs
              (Fixtures.collaborators Fixtures.backend) 1
              (Fixtures.model_of Fixtures.split_graph None)
              (Fixtures.model_of MoreFixtures.identity_graph None) 0
              MoreFixtures.same_data [[("x", zeros [4])]]
              (snd (execute_onnx (Fixtures.collaborators Fixtures.backend) 1
                      (Fixtures.model_of Fixtures.split_graph None) 0 false
                      [[("x", zeros [4])]]))
              (snd (execute_onnx (Fixtures.collaborators Fixtures.backend) 1
                      (Fixtures.model_of MoreFixtures.identity_graph None) 0 false
                      (snd (execute_onnx (Fixtures.collaborators Fixtures.backend) 1
                              (Fixtures.model_of Fixtures.split_graph None) 0 false
                              [[("x", zeros [4])]]))))
              2 4 (mk_ValueInfo "b" [3]) [mk_ValueInfo "a" [1]]
              (mk_ValueInfo "x" [4]) [] eq_refl eq_refl eq_refl eq_refl)
    as (fa & fb & buf_a & buf_b & Hfa & Hfb & Hba & Hbb & Hrun).
  vm_compute in Hfa. injection Hfa as <-.
  vm_compute in Hfb. injection Hfb as <-.
  vm_compute in Hba. injection Hba as <-.
  vm_compute in Hbb. injection Hbb as <-.
  exact Hrun.
Defined.

Lemma frames_compare_execution c depth n P model_a model_b input_dict f :
  frames n P (compare_execution c depth model_a model_b input_dict f).
Proof.
  unfold compare_execution.
  apply frames_bind; [apply frames_execute_onnx|]. intros out_a.
  apply frames_bind; [apply frames_deref|]. intros items_a.
  apply frames_bind; [apply frames_lift_result|]. intros res_a.
  apply frames_bind; [apply frames_execute_onnx|]. intros out_b.
  apply frames_bind; [apply frames_deref|]. intros items_b.
  apply frames_bind; [apply frames_lift_result|]. intros res_b.
  apply frames_lift_result.
Qed.

(** X16: [compare_execution], however it ends, changes no object that
    existed before the call; in particular the second model is bound the
    same input dictionary as the first. *)
Theorem compare_execution_keeps_store
    c depth model_a model_b input_dict compare_fxn (h : heap) l :
  l < length h ->
  snd (compare_execution c depth model_a model_b input_dict compare_fxn h) !! l
  = h !! l.
Proof.
  intros Hl.
  destruct (frames_compare_execution c depth (length h) (fun _ => False)
              model_a model_b input_dict compare_fxn h) as [_ Hsame]; [done|].
  apply Hsame; [done|tauto].
Qed.

Lemma compare_execution_keeps_store_witness :
  snd (compare_execution (Fixtures.collaborators Fixtures.backend) 1
         (Fixtures.model_of Fixtures.split_graph None)
         (Fixtures.model_of MoreFixtures.identity_graph None) 0
         MoreFixtures.same_data [[("x", zeros [4])]]) !! 0
  = Some [("x", zeros [4])].
Proof.
  apply (compare_execution_keeps_store _ _ _ _ _ _ [[("x", zeros [4])]] 0).
  simpl. lia.
Defined.

(** ** [check_two_dict_for_equality] *)

Lemma pydict_get_keys {V} k (d : list (string * V)) :
  k ∈ map fst d <-> is_Some (pydict_get k d).
Proof.
  induction d as [|[k' v] d IH]; simpl.
  - split; [intros H; by apply elem_of_nil in H | by intros [? ?]].
  - destruct (String.eqb k k') eqn:E.
    + apply String.eqb_eq in E. subst. split; [eauto|].
      intros _. apply list_elem_of_here.
    + apply String.eqb_neq in E. rewrite elem_of_cons, IH.
      split; [intros [?|?]; done | by right].
Qed.

Lemma check_keys_run {V} `{EqDecision V} todo (dict1 dict2 : list (string * V)) :
  (forall k, k ∈ todo -> is_Some (pydict_get k dict1)) ->
  (check_keys todo dict1 dict2 = Returns true
   /\ forall k v, k ∈ todo -> pydict_get k dict1 = Some v ->
        pydict_get k dict2 = Some v)
  \/ (exists pre k rest msg,
        todo = pre ++ k :: rest
        /\ (forall p v, p ∈ pre -> pydict_get p dict1 = Some v ->
              pydict_get p dict2 = Some v)
        /\ check_keys todo dict1 dict2 = RaisesAssertionError msg
        /\ ((pydict_get k dict2 = None /\ msg = missing_key_msg k)
            \/ (exists v1 v2, pydict_get k dict1 = Some v1
                  /\ pydict_get k dict2 = Some v2 /\ v1 ≠ v2
                  /\ msg = different_values_msg k))).
Proof.
  induction todo as [|key todo IH]; intros Hkeys.
  - left. split; [done|]. intros k v Hk. by apply elem_of_nil in Hk.
  - cbn [check_keys].
    destruct (pydict_get key dict2) as [v2|] eqn:H2.
    + destruct (Hkeys key) as [v1 H1]; [apply list_elem_of_here|].
      rewrite H1. case_decide as Hv.
      * subst v2. destruct IH as [[Hok Hall]|(pre & k & rest & msg & -> & Hpre & Hr & Hk)].
        { intros k Hk. by apply Hkeys, list_elem_of_further. }
        -- left. split; [done|]. intros k v [->|Hk]%elem_of_cons; [congruence|].
           by apply Hall.
        -- right. exists (key :: pre), k, rest, msg. split; [done|].
           split; [|done]. intros p v [->|Hp]%elem_of_cons; [congruence|].
           by apply Hpre.
      * right. exists [], key, todo, (different_values_msg key).
        split; [done|]. split; [intros p v Hp; by apply elem_of_nil in Hp|].
        split; [done|]. right. exists v1, v2. done.
    + right. exists [], key, todo, (missing_key_msg key).
      split; [done|]. split; [intros p v Hp; by apply elem_of_nil in Hp|].
      split; [done|]. by left.
Qed.

(** X17: [check_two_dict_for_equality] returns [True] exactly when every
    entry of the first dictionary is an entry of the second; keys that only
    the second dictionary has are not looked at.  It never returns [False]:
    when the inclusion fails it raises [AssertionError]. *)
Theorem check_two_dict_is_inclusion {V} `{EqDecision V}
    (dict1 dict2 : list (string * V)) :
  (check_two_dict_for_equality dict1 dict2 = Returns true
   <-> included dict1 dict2)
  /\ (~ included dict1 dict2 ->
      exists msg, check_two_dict_for_equality dict1 dict2
                  = RaisesAssertionError msg).
Proof.
  unfold check_two_dict_for_equality.
  destruct (check_keys_run (map fst dict1) dict1 dict2)
    as [[Hok Hall]|(pre & k & rest & msg & Hk & Hpre & Hr & Hwhy)].
  { intros k. apply pydict_get_keys. }
  - assert (Hinc : included dict1 dict2).
    { intros k v Hv. apply Hall; [|done]. apply pydict_get_keys. eauto. }
    split; [by split|]. by intros [].
  - assert (Hninc : ~ included dict1 dict2).
    { intros Hinc. destruct Hwhy as [[Hnone _]|(v1 & v2 & H1 & H2 & Hne & _)].
      - assert (is_Some (pydict_get k dict1)) as [v Hv].
        { apply pydict_get_keys. rewrite Hk. apply elem_of_app. right.
          apply list_elem_of_here. }
        apply Hinc in Hv. congruence.
      - apply Hinc in H1. congruence. }
    split; [|by eauto]. rewrite Hr. split; [done|]. by intros ?.
Qed.

(** Every entry of the first dictionary is in the second, which has one
    key more. *)
Lemma check_two_dict_is_inclusion_witness :
  check_two_dict_for_equality
    [("Im2Col", ["The number of attributes is correct"])]
    [("Abs", ["The number of inputs is correct"]);
     ("Im2Col", ["The number of attributes is correct"])]
  = Returns true.
Proof.
  apply (proj1 (check_two_dict_is_inclusion
                  [("Im2Col", ["The number of attributes is correct"])]
                  [("Abs", ["The number of inputs is correct"]);
                   ("Im2Col", ["The number of attributes is correct"])])).
  intros k v Hv. simpl in Hv.
  destruct (String.eqb k "Im2Col") eqn:E; [|done].
  apply String.eqb_eq in E. by subst.
Defined.

Lemma check_keys_first_difference {V} `{EqDecision V}
    (dict1 dict2 : list (string * V)) pre k rest v1 :
  (forall p, p ∈ pre -> is_Some (pydict_get p dict1)) ->
  (forall p v, p ∈ pre -> pydict_get p dict1 = Some v ->
     pydict_get p dict2 = Some v) ->
  pydict_get k dict1 = Some v1 ->
  pydict_get k dict2 ≠ Some v1 ->
  check_keys (pre ++ k :: rest) dict1 dict2
  = RaisesAssertionError
      (match pydict_get k dict2 with
       | None => missing_key_msg k
       | Some _ => different_values_msg k
       end).
Proof.
  intros Hkeys Hpre H1 H2. induction pre as [|p pre IH]; cbn [app check_keys].
  - destruct (pydict_get k dict2) as [v2|]; [|done].
    rewrite H1. rewrite decide_False; [done|]. congruence.
  - destruct (Hkeys p) as [v Hv]; [apply list_elem_of_here|].
    rewrite (Hpre p v), Hv by (done || apply list_elem_of_here).
    rewrite decide_True by done. apply IH.
    + intros q Hq. by apply Hkeys, list_elem_of_further.
    + intros q w Hq. by apply Hpre, list_elem_of_further.
Qed.

(** X18: the first key of the first dictionary, in its order, that the
    second dictionary lacks or holds with another value decides the error:
    a missing key is reported as not being in both dictionaries, a key with
    another value as having different values. *)
Theorem check_two_dict_first_difference {V} `{EqDecision V}
    (dict1 dict2 : list (string * V)) pre k rest v1 :
  map fst dict1 = pre ++ k :: rest ->
  (forall p v, p ∈ pre -> pydict_get p dict1 = Some v ->
     pydict_get p dict2 = Some v) ->
  pydict_get k dict1 = Some v1 ->
  pydict_get k dict2 ≠ Some v1 ->
  check_two_dict_for_equality dict1 dict2
  = RaisesAssertionError
      (match pydict_get k dict2 with
       | None => missing_key_msg k
       | Some _ => different_values_msg k
       end).
Proof.
  unfold check_two_dict_for_equality. intros Hk Hpre H1 H2. rewrite Hk.
  apply check_keys_first_difference with v1; try done.
  intros p Hp. apply pydict_get_keys. rewrite Hk.
  apply elem_of_app. by left.
Qed.

(** The produced dictionary of the test, against an expected one that
    lacks its last message. *)
Lemma check_two_dict_first_difference_witness :
  check_two_dict_for_equality
    [("Abs", ["The number of inputs is correct"]);
     ("Im2Col", ["The number of attributes is correct";
                 "All necessary attributes exist"])]
    [("Im2Col", ["The number of attributes is correct"]);
     ("Abs", ["The number of inputs is correct"])]
  = RaisesAssertionError (different_values_msg "Im2Col").
Proof.
  apply (check_two_dict_first_difference
           [("Abs", ["The number of inputs is correct"]);
            ("Im2Col", ["The number of attributes is correct";
                        "All necessary attributes exist"])]
           [("Im2Col", ["The number of attributes is correct"]);
            ("Abs", ["The number of inputs is correct"])]
           ["Abs"] "Im2Col" []
           ["The number of attributes is correct";
            "All necessary attributes exist"]); try done.
  intros p v [->|Hp]%elem_of_cons; [done|]. by apply elem_of_nil in Hp.
Defined.

(** ** A call does not depend on what else is in the store *)

Lemma same_outcome_eq {A} (r : result A) : same_outcome eq r r.
Proof. destruct r; simpl; auto. Qed.

Lemma shift_lt n k l : l < n -> shift n k l = l.
Proof. intros Hl. unfold shift. by rewrite decide_True. Qed.

Lemma lookup_shift n k (B T J : heap) l :
  length B = n -> length J = k ->
  (B ++ J ++ T) !! shift n k l = (B ++ T) !! l.
Proof.
  intros HB HJ. unfold shift. case_decide as Hl.
  - by rewrite !lookup_app_l by lia.
  - rewrite !lookup_app_r by lia. f_equal. lia.
Qed.

Lemma insert_shift n k (B T J : heap) l d :
  length B = n -> length J = k ->
  exists (B' T' : heap),
    length B' = n /\ length T' = length T
    /\ <[l := d]> (B ++ T) = B' ++ T'
    /\ <[shift n k l := d]> (B ++ J ++ T) = B' ++ J ++ T'.
Proof.
  intros HB HJ. unfold shift. case_decide as Hl.
  - exists (<[l := d]> B), T. rewrite length_insert.
    by rewrite !insert_app_l by lia.
  - exists B, (<[l - n := d]> T). rewrite length_insert.
    split; [done|]. split; [done|].
    rewrite !insert_app_r_alt by lia. split; [by rewrite HB|].
    do 2 f_equal. rewrite HB, HJ. f_equal. lia.
Qed.

Lemma transports_ret {A} n k (R : A -> A -> Prop) a b :
  R a b -> transports n k R (ret a) (ret b).
Proof. intros HR B T J HB HJ. exists B, T. done. Qed.

Lemma transports_raise {A} n k (R : A -> A -> Prop) e :
  transports n k R (raise e) (raise e).
Proof. intros B T J HB HJ. exists B, T. simpl. auto 6. Qed.

Lemma transports_lift_result {A} n k (r : result A) :
  transports n k eq (lift_result r) (lift_result r).
Proof.
  intros B T J HB HJ. exists B, T. simpl.
  repeat (split; [done|]). apply same_outcome_eq.
Qed.

Lemma transports_bind {A B} n k (R : A -> A -> Prop) (R' : B -> B -> Prop)
    (m1 m2 : M A) (k1 k2 : A -> M B) :
  transports n k R m1 m2 ->
  (forall a b, R a b -> transports n k R' (k1 a) (k2 b)) ->
  transports n k R' (bind m1 k1) (bind m2 k2).
Proof.
  intros Hm Hk B0 T J HB HJ. unfold bind.
  destruct (Hm B0 T J HB HJ) as (B1 & T1 & HB1 & HT1 & Hs1 & Hs2 & Hout).
  destruct (m1 (B0 ++ T)) as [r1 s1], (m2 (B0 ++ J ++ T)) as [r2 s2].
  simpl in *. subst s1 s2.
  destruct r1 as [a|e1], r2 as [b|e2]; simpl in Hout; try done.
  - destruct (Hk a b Hout B1 T1 J HB1 HJ) as (B2 & T2 & ? & ? & ? & ? & ?).
    exists B2, T2. split; [done|]. split; [lia|]. done.
  - exists B1, T1. done.
Qed.

Lemma transports_for_each {A} n k (l : list A) (b1 b2 : A -> M unit) :
  (forall x, transports n k eq (b1 x) (b2 x)) ->
  transports n k eq (for_each l b1) (for_each l b2).
Proof.
  intros Hb. induction l as [|x l IH]; simpl.
  - by apply transports_ret.
  - eapply transports_bind; [apply Hb|]. intros _ _ _. apply IH.
Qed.

Lemma transports_at_loc {A} n k l (f : D A) :
  transports n k eq (at_loc l f) (at_loc (shift n k l) f).
Proof.
  intros B T J HB HJ. unfold at_loc. rewrite (lookup_shift n k) by done.
  destruct ((B ++ T) !! l) as [d|].
  - destruct (f d) as [r d']. simpl.
    destruct (insert_shift n k B T J l d' HB HJ) as (B' & T' & ? & HT & -> & ->).
    exists B', T'. split; [done|]. split; [lia|].
    repeat (split; [done|]). apply same_outcome_eq.
  - exists B, T. simpl. repeat (split; [done|]). right. eauto.
Qed.

Lemma transports_deref n k l :
  transports n k eq (deref l) (deref (shift n k l)).
Proof.
  intros B T J HB HJ. unfold deref. rewrite (lookup_shift n k) by done.
  destruct ((B ++ T) !! l) as [d|]; exists B, T; simpl.
  - done.
  - repeat (split; [done|]). right. eauto.
Qed.

Lemma transports_new_dict n k d :
  transports n k (fun a b => b = shift n k a) (new_dict d) (new_dict d).
Proof.
  intros B T J HB HJ. unfold new_dict. simpl.
  exists B, (T ++ [d]). rewrite !length_app. simpl.
  split; [done|]. split; [lia|]. rewrite <- !app_assoc.
  split; [done|]. split; [done|]. unfold shift.
  rewrite decide_False by lia. lia.
Qed.

Lemma transports_bind_input n k input_dict ctx name :
  transports n k eq (bind_input input_dict ctx name)
    (bind_input (shift n k input_dict) (shift n k ctx) name).
Proof.
  unfold bind_input.
  eapply transports_bind; [apply transports_at_loc|]. intros present _ <-.
  destruct present; [|by apply transports_ret].
  eapply transports_bind; [apply transports_at_loc|]. intros cur _ <-.
  eapply transports_bind; [apply transports_at_loc|]. intros given _ <-.
  case_decide; [apply transports_at_loc | apply transports_raise].
Qed.

Lemma transports_bind_inputs n k input_dict ctx :
  transports n k eq (bind_inputs input_dict ctx)
    (bind_inputs (shift n k input_dict) (shift n k ctx)).
Proof.
  unfold bind_inputs.
  eapply transports_bind; [apply transports_at_loc|]. intros names _ <-.
  apply transports_for_each. intros x. apply transports_bind_input.
Qed.

Lemma transports_return_outputs n k graph ctx full :
  transports n k (fun a b => b = shift n k a)
    (return_outputs graph ctx full) (return_outputs graph (shift n k ctx) full).
Proof.
  unfold return_outputs. destruct full; [by apply transports_ret|].
  eapply transports_bind; [apply transports_new_dict|]. intros o _ ->.
  eapply transports_bind; [|intros _ _ _; by apply transports_ret].
  apply transports_for_each. intros vi.
  eapply transports_bind; [apply transports_at_loc|]. intros v _ <-.
  apply transports_at_loc.
Qed.

Lemma transports_execute_onnx c depth n k model input_dict full :
  transports n k (fun a b => b = shift n k a)
    (execute_onnx c depth model input_dict full)
    (execute_onnx c depth model (shift n k input_dict) full).
Proof.
  revert model input_dict full.
  induction depth as [|depth IH]; intros model input_dict full; simpl.
  - apply transports_raise.
  - unfold execute_onnx_body.
    destruct (negb _); [apply transports_raise|].
    eapply transports_bind; [apply transports_new_dict|]. intros ctx _ ->.
    eapply transports_bind; [apply transports_bind_inputs|]. intros _ _ _.
    eapply transports_bind; [|intros _ _ _; apply transports_return_outputs].
    unfold run_exec_mode.
    destruct (_ || _).
    + apply transports_for_each. intros node. unfold execute_node_with.
      destruct (String.eqb (Node.op_type node) _).
      * eapply transports_bind; [apply transports_lift_result|].
        intros nested _ <-.
        eapply transports_bind; [apply IH|]. intros r _ ->.
        eapply transports_bind; [apply transports_deref|]. intros other _ <-.
        apply transports_at_loc.
      * destruct (String.eqb (Node.domain node) _); apply transports_at_loc.
    + repeat case_bool_decide; try apply transports_at_loc.
      apply transports_raise.
Qed.

(** A store that only grew is the old store followed by what was added. *)
Lemma store_grown (h h' : heap) :
  length h <= length h' ->
  (forall l, l < length h -> h' !! l = h !! l) ->
  h' = h ++ drop (length h) h'.
Proof.
  intros Hlen Hsame. rewrite <- (take_drop (length h) h') at 1. f_equal.
  apply list_eq. intros i. destruct (decide (i < length h)) as [Hi|Hi].
  - rewrite lookup_take_lt by done. by apply Hsame.
  - rewrite lookup_take_ge by lia. symmetry. apply lookup_ge_None. lia.
Qed.

(** A call on a store that an earlier call has added objects to returns a
    dictionary with the contents it would have had without them. *)
Lemma execute_onnx_after c depth model input_dict full
    (h h1 hb : heap) rb db :
  input_dict < length h ->
  length h <= length h1 ->
  (forall l, l < length h -> h1 !! l = h !! l) ->
  execute_onnx c depth model input_dict full h = (Ok rb, hb) ->
  hb !! rb = Some db ->
  exists rb' hb',
    execute_onnx c depth model input_dict full h1 = (Ok rb', hb')
    /\ hb' !! rb' = Some db.
Proof.
  intros Hin Hlen Hsame Eb Hdb.
  pose proof (store_grown h h1 Hlen Hsame) as Hh1.
  destruct (transports_execute_onnx c depth (length h)
              (length (drop (length h) h1)) model input_dict full
              h [] (drop (length h) h1) eq_refl eq_refl)
    as (B' & T' & HB' & _ & Hs1 & Hs2 & Hout).
  rewrite !app_nil_r in Hs1. rewrite !app_nil_r in Hs2.
  rewrite !app_nil_r in Hout. rewrite <- Hh1 in Hs2, Hout.
  rewrite (shift_lt _ _ input_dict) in Hs2, Hout by done.
  rewrite Eb in Hs1, Hout. simpl in Hs1, Hout.
  destruct (execute_onnx c depth model input_dict full h1) as [[rb'|e] hb'];
    simpl in *; [|done].
  exists rb', hb'. split; [done|]. rewrite Hs2, Hout.
  rewrite (lookup_shift (length h) (length (drop (length h) h1))) by done.
  by rewrite <- Hs1.
Qed.

(** X19: the two executions of [compare_execution] do not influence each
    other.  If [execute_onnx], called on its own with the input dictionary,
    returns for the first model a dictionary whose first value is [va] and
    for the second model one whose first value is [vb], then
    [compare_execution] ends as the predicate does on [va] and [vb]. *)
Theorem compare_execution_runs_are_independent
    c depth model_a model_b input_dict compare_fxn
    (h ha hb : heap) ra rb da db va vb :
  input_dict < length h ->
  execute_onnx c depth model_a input_dict false h = (Ok ra, ha) ->
  ha !! ra = Some da ->
  first_item_value da = Ok va ->
  execute_onnx c depth model_b input_dict false h = (Ok rb, hb) ->
  hb !! rb = Some db ->
  first_item_value db = Ok vb ->
  fst (compare_execution c depth model_a model_b input_dict compare_fxn h)
  = compare_fxn va vb.
Proof.
  intros Hin Ea Hda Hva Eb Hdb Hvb.
  destruct (frames_execute_onnx c depth (length h) (fun _ => False)
              model_a input_dict false h) as [Hlen Hsame]; [done|].
  rewrite Ea in Hlen, Hsame. simpl in Hlen, Hsame.
  destruct (execute_onnx_after c depth model_b input_dict false h ha hb rb db)
    as (rb' & hb' & Eb' & Hdb'); try done.
  { intros l Hl. apply Hsame; [done|tauto]. }
  unfold compare_execution, bind at 1. rewrite Ea.
  unfold bind at 1, deref at 1. rewrite Hda.
  unfold bind at 1, lift_result at 1. rewrite Hva.
  unfold bind at 1. rewrite Eb'.
  unfold bind at 1, deref at 1. rewrite Hdb'.
  unfold bind at 1, lift_result at 1. rewrite Hvb. done.
Qed.

Lemma compare_execution_runs_are_independent_witness :
  fst (compare_execution (Fixtures.collaborators Fixtures.backend) 1
         (Fixtures.model_of Fixtures.split_graph None)
         (Fixtures.model_of MoreFixtures.identity_graph None) 0
         MoreFixtures.same_data [[("x", zeros [4])]])
  = MoreFixtures.same_data (Fixtures.named_buffer (mk_ValueInfo "b" [3]))
      (zeros [4]).
Proof.
  apply (compare_execution_runs_are_independent _ _ _ _ _ _
              [[("x", zeros [4])]]
              (snd (execute_onnx (Fixtures.collaborators Fixtures.backend) 1
                      (Fixtures.model_of Fixtures.split_graph None) 0 false
                      [[("x", zeros [4])]]))
              (snd (execute_onnx (Fixtures.collaborators Fixtures.backend) 1
                      (Fixtures.model_of MoreFixtures.identity_graph None) 0
                      false [[("x", zeros [4])]]))
              2 2
              [("b", Fixtures.named_buffer (mk_ValueInfo "b" [3]));
               ("a", Fixtures.named_buffer (mk_ValueInfo "a" [1]))]
              [("x", zeros [4])]);
    [simpl; lia | reflexivity..].
Defined.
